(** * Delta DVP10SX gateway: device interface and request facade

    A shallow embedding of [plc_lib.py] (class [DeltaPLC]) and of the
    routes of [plc_api.py] that the specification talks about, followed
    by the properties of the specification proved (or refuted) on it.

    The serial transport (pymodbus) is outside the repository.  It is
    modelled as a [Bus]: a deterministic environment that answers every
    call from the history of calls made so far.  Every call the code makes
    on the transport is appended to a trace, so that "which transactions
    were issued, and in which order" is a statement about a list. *)

From Stdlib Require Import ZArith Lia.
From stdpp Require Import base option list strings pretty gmap fin_maps.

Local Open Scope Z_scope.

(** ** The transport and the world *)

(** One constructor per call the code makes on the outside world.  Every
    transaction is addressed to [config['slave_address']], a constant of
    the process, which the events therefore do not repeat. *)
Inductive Event : Type :=
| EConnect                                  (* ModbusSerialClient(...); client.connect() *)
| EClose                                    (* client.close() *)
| EReadHolding (address count : Z)          (* client.read_holding_registers *)
| EReadCoils (address count : Z)            (* client.read_coils *)
| EReadDiscrete (address count : Z)         (* client.read_discrete_inputs *)
| EWriteRegister (address value : Z)        (* client.write_register *)
| EWriteCoils (address : Z) (values : list bool)  (* client.write_coils *)
| EWriteCoil (address : Z) (value : bool)   (* client.write_coil *)
| ESleep (ms : Z).                          (* time.sleep *)

(** What a transport call hands back.  [Registers] is an object with a
    [registers] attribute, [Bits] one with a [bits] attribute, [Ack] a
    plain acknowledgement with neither; for those three [isError()] is
    false.  [ExceptionResponse] has [isError()] true and neither
    attribute.  [Raises] is the call raising a Python exception. *)
Inductive Response : Type :=
| Registers (registers : list Z)
| Bits (bits : list bool)
| Ack
| ExceptionResponse
| Raises.

(** Outcome of [connect()]'s body: the client constructor may raise (the
    old client object is kept), [client.connect()] may raise, or it
    returns a truth value. *)
Inductive LinkOutcome : Type :=
| CtorRaises
| ConnectRaises
| ConnectReturns (up : bool).

Record Bus : Type := mkBus {
  link : list Event -> LinkOutcome;   (* answer to the last EConnect of the history *)
  device : list Event -> Response;    (* answer to the last transaction of the history *)
  clock : list Event -> string        (* datetime.now().isoformat() after that history *)
}.

(** The process state: the singleton [plc] object ([client] is whether
    [self.client] is an object rather than [None]; [connected] is
    [self.connected]), the environment, and the calls made so far. *)
Record World : Type := mkWorld {
  bus : Bus;
  client : bool;
  connected : bool;
  trace : list Event
}.

Definition M (A : Type) : Type := World -> A * World.

Definition ret {A} (a : A) : M A := fun w => (a, w).

Definition bind {A B} (m : M A) (k : A -> M B) : M B :=
  fun w => let (a, w') := m w in k a w'.

Declare Scope plc_scope.
Delimit Scope plc_scope with plc.
Notation "'let*' x ':=' c 'in' k" := (bind c (fun x => k))
  (at level 10, x name, c at level 100, k at level 200) : plc_scope.
Local Open Scope plc_scope.

(** A call on [self.client].  With [self.client] still [None] the
    attribute access raises before anything reaches the wire. *)
Definition call (e : Event) : M Response := fun w =>
  if client w then
    let t := trace w ++ [e] in
    (device (bus w) t, mkWorld (bus w) (client w) (connected w) t)
  else (Raises, w).

Definition sleep (ms : Z) : M unit := fun w =>
  (tt, mkWorld (bus w) (client w) (connected w) (trace w ++ [ESleep ms])).

(** [hasattr(response, 'registers')], [hasattr(response, 'bits')] and
    [response.isError()] on a response that was returned. *)
Definition registers_of (r : Response) : option (list Z) :=
  match r with Registers l => Some l | _ => None end.

Definition bits_of (r : Response) : option (list bool) :=
  match r with Bits l => Some l | _ => None end.

Definition isError (r : Response) : bool :=
  match r with ExceptionResponse => true | _ => false end.

(** Python's [l[:count]]: a negative [count] counts from the end. *)
Definition slice_to {A} (count : Z) (l : list A) : list A :=
  if 0 <=? count then take (Z.to_nat count) l
  else take (length l - Z.to_nat (- count))%nat l.

(** Truth value of a list-or-None, as in [if values:]. *)
Definition truthy {A} (v : option (list A)) : bool :=
  match v with Some (_ :: _) => true | _ => false end.

(** ** plc_lib.py: class DeltaPLC *)

Definition D_OFFSET : Z := 0x1000.
Definition M_OFFSET : Z := 0x0800.
Definition X_OFFSET : Z := 0x0400.
Definition Y_OFFSET : Z := 0x0500.

Definition connect : M bool := fun w =>
  let t := trace w ++ [EConnect] in
  match link (bus w) t with
  | CtorRaises => (false, mkWorld (bus w) (client w) false t)
  | ConnectRaises => (false, mkWorld (bus w) true false t)
  | ConnectReturns true => (true, mkWorld (bus w) true true t)
  | ConnectReturns false => (false, mkWorld (bus w) true false t)
  end.

Definition disconnect : M unit := fun w =>
  if client w then (tt, mkWorld (bus w) true false (trace w ++ [EClose]))
  else (tt, w).

Definition ensure_connected : M bool := fun w =>
  if negb (connected w) then connect w else (true, w).

Definition read_d_registers (start count : Z) : M (option (list Z)) :=
  let* ok := ensure_connected in
  if negb ok then ret None else
  let* response := call (EReadHolding (D_OFFSET + start) count) in
  ret (registers_of response).

Definition read_m_coils (start count : Z) : M (option (list bool)) :=
  let* ok := ensure_connected in
  if negb ok then ret None else
  let* response := call (EReadCoils (M_OFFSET + start) count) in
  ret (slice_to count <$> bits_of response).

Definition read_x_inputs (start count : Z) : M (option (list bool)) :=
  let* ok := ensure_connected in
  if negb ok then ret None else
  let* response := call (EReadDiscrete (X_OFFSET + start) count) in
  ret (slice_to count <$> bits_of response).

Definition read_y_outputs (start count : Z) : M (option (list bool)) :=
  let* ok := ensure_connected in
  if negb ok then ret None else
  let* response := call (EReadCoils (Y_OFFSET + start) count) in
  ret (slice_to count <$> bits_of response).

(** The tail shared by the write methods: [True] when the call returned
    a response that is not an error, [False] when it returned an error
    response or raised. *)
Definition accepted (r : Response) : bool :=
  match r with Raises => false | _ => negb (isError r) end.

Definition write_d_register (address value : Z) : M bool :=
  let* ok := ensure_connected in
  if negb ok then ret false else
  let* response := call (EWriteRegister (D_OFFSET + address) value) in
  ret (accepted response).

Definition _write_m_coil_alt (address : Z) (state : bool) : M bool :=
  let* response := call (EWriteCoil (M_OFFSET + address) state) in
  ret (accepted response).

(** [verify and verify[0] == state].  The requested state is a boolean:
    every caller in the repository passes [bool(...)]. *)
Definition verified (verify : option (list bool)) (state : bool) : bool :=
  match verify with
  | Some (b :: _) => Bool.eqb b state
  | _ => false
  end.

Definition write_m_coil (address : Z) (state : bool) : M bool :=
  let* ok := ensure_connected in
  if negb ok then ret false else
  let* response := call (EWriteCoils (M_OFFSET + address) [state]) in
  if accepted response then
    let* _ := sleep 50 in
    let* verify := read_m_coils address 1 in
    if verified verify state then ret true
    else _write_m_coil_alt address state
  else ret false.

Definition write_y_output (address : Z) (state : bool) : M bool :=
  let* ok := ensure_connected in
  if negb ok then ret false else
  let* response := call (EWriteCoil (Y_OFFSET + address) state) in
  ret (accepted response).

(** A value stored in [get_all_status]'s dictionary: the timestamp, the
    connection flag, or the dictionary of a region sub-section. *)
Inductive Field : Type :=
| FStr (s : string)
| FBool (b : bool)
| FWords (section : gmap string Z)
| FFlags (section : gmap string bool).

(** [enumerate(values)] *)
Fixpoint enumerate_from {A} (i : nat) (values : list A) : list (nat * A) :=
  match values with
  | [] => []
  | val :: rest => (i, val) :: enumerate_from (S i) rest
  end.

Definition enumerate {A} (values : list A) : list (nat * A) :=
  enumerate_from 0 values.

(** [for i, val in enumerate(values): section[f'{letter}{i}'] = val],
    guarded by [if values:]. *)
Definition fill {A} (letter : string) (values : option (list A))
    (section : gmap string A) : gmap string A :=
  if truthy values then
    foldl (fun acc iv => <[letter +:+ pretty (fst iv) := snd iv]> acc)
          section (enumerate (default [] values))
  else section.

(** The dictionary [data], with its six keys, once the four
    sub-sections (created empty) have received their entries. *)
Definition status_dict (stamp : string) (flag : bool)
    (d : gmap string Z) (m x y : gmap string bool) : gmap string Field :=
  <["y_outputs" := FFlags y]> (<["x_inputs" := FFlags x]>
    (<["m_coils" := FFlags m]> (<["d_registers" := FWords d]>
       (<["connected" := FBool flag]> (<["timestamp" := FStr stamp]> ∅))))).

(** None of the calls inside the [try] can raise (each read method
    catches its own exceptions), so the [except] branch that returns
    [None] is never taken; the result type keeps the option. *)
Definition get_all_status : M (option (gmap string Field)) := fun w =>
  let stamp := clock (bus w) (trace w) in
  let flag := connected w in
  (let* d_values := read_d_registers 0 10 in
   let* m_values := read_m_coils 0 10 in
   let* x_values := read_x_inputs 0 8 in
   let* y_values := read_y_outputs 0 8 in
   ret (Some (status_dict stamp flag
                (fill "D" d_values ∅) (fill "M" m_values ∅)
                (fill "X" x_values ∅) (fill "Y" y_values ∅)))) w.

(** ** plc_api.py: the request facade *)

(** A parsed JSON document, as [request.get_json()] returns it.  A finite
    float is [JFloat num den], the rational [num/den] that the float is
    equal to; the parser also yields the floats that are not finite: plus
    or minus infinity (from the literal or from a number too large, such as
    1e400) and NaN.  The fields of an object are its items in insertion
    order (a dictionary has each key once). *)
#[local] Set Warnings "-register-all".
Inductive json : Type :=
| JNull
| JBool (b : bool)
| JInt (z : Z)
| JFloat (num : Z) (den : positive)
| JInfinity (negative : bool)
| JNaN
| JStr (s : string)
| JArr (items : list json)
| JObj (fields : list (string * json)).

(** The exception classes the routes can meet. *)
Inductive exn : Type :=
  ValueError | TypeError | AttributeError | IndexError | KeyError
| OverflowError.

Inductive Result (A : Type) : Type :=
| Value (a : A)
| Raise (e : exn).
Arguments Value {A} a.
Arguments Raise {A} e.

Fixpoint assoc {A} (key : string) (fields : list (string * A)) : option A :=
  match fields with
  | [] => None
  | (k, v) :: rest => if String.eqb k key then Some v else assoc key rest
  end.

(** [data.get(key, dflt)]; anything but a dictionary has no [get]. *)
Definition get (data : json) (key : string) (dflt : json) : Result json :=
  match data with
  | JObj fields => Value (default dflt (assoc key fields))
  | _ => Raise AttributeError
  end.

(** [bool(v)] *)
Definition py_bool (v : json) : bool :=
  match v with
  | JNull => false
  | JBool b => b
  | JInt z => negb (z =? 0)
  | JFloat num _ => negb (num =? 0)
  | JInfinity _ | JNaN => true
  | JStr s => negb (String.eqb s "")
  | JArr items => match items with [] => false | _ => true end
  | JObj fields => match fields with [] => false | _ => true end
  end.

Inductive Method : Type := GET | POST.

(** The body handed to [jsonify], one constructor per shape; [BError]
    is [{'error': str(e)}] and [BInvalid] is
    [{'error': f'Invalid value: {e}'}] for a caught exception [e]. *)
Inductive Body : Type :=
| BJson (fields : list (string * json))
| BStatus (status : gmap string Field)
| BRange (start count : Z) (registers : gmap string Z)
| BBulk (success : bool) (total succeeded : Z) (results : gmap string bool)
| BError (e : exn)
| BInvalid (e : exn).

Definition Reply : Type := Body * Z.

Definition plc_connected : M bool := fun w => (connected w, w).

(** GET /api/status *)
Definition get_status : M Reply :=
  let* status := get_all_status in
  match status with
  | Some st =>
      let* m100_103 := read_m_coils 100 4 in
      if truthy m100_103 then
        match st !! "m_coils", m100_103 with
        | Some (FFlags m), Some (b0 :: b1 :: b2 :: b3 :: _) =>
            ret (BStatus (<["m_coils" := FFlags
                   (<["M103" := b3]> (<["M102" := b2]>
                      (<["M101" := b1]> (<["M100" := b0]> m))))]> st),
                 200)
        | Some (FFlags _), _ => ret (BError IndexError, 500)
        | Some _, _ => ret (BError TypeError, 500)
        | None, _ => ret (BError KeyError, 500)
        end
      else ret (BStatus st, 200)
  | None =>
      let* c := plc_connected in
      ret (BJson [("error", JStr "Failed to read PLC"); ("connected", JBool c)], 500)
  end.

Section Routes.

(** Python's [int] on a string; [None] when it raises [ValueError]. *)
Variable int_of_str : string -> option Z.

(** [int(v)]: a finite float is truncated toward zero, an infinite one
    raises [OverflowError] and NaN raises [ValueError]. *)
Definition py_int (v : json) : Result Z :=
  match v with
  | JInt z => Value z
  | JBool b => Value (if b then 1 else 0)
  | JFloat num den => Value (Z.quot num (Z.pos den))
  | JInfinity _ => Raise OverflowError
  | JNaN => Raise ValueError
  | JStr s => match int_of_str s with Some z => Value z | None => Raise ValueError end
  | JNull | JArr _ | JObj _ => Raise TypeError
  end.

(** The two [except] clauses of [d_register]. *)
Definition d_register_except (e : exn) : Reply :=
  match e with
  | ValueError => (BInvalid e, 400)
  | _ => (BError e, 500)
  end.

(** GET|POST /api/d/<int:address> *)
Definition d_register (method : Method) (address : Z) (body : json) : M Reply :=
  match method with
  | GET =>
      let* values := read_d_registers address 1 in
      match values with
      | Some (v :: _) =>
          ret (BJson [("success", JBool true);
                      ("address", JStr ("D" +:+ pretty address));
                      ("value", JInt v)], 200)
      | Some [] => ret (d_register_except IndexError)
      | None =>
          let* c := plc_connected in
          ret (BJson [("error", JStr ("Failed to read D" +:+ pretty address));
                      ("connected", JBool c)], 500)
      end
  | POST =>
      match get body "value" (JInt 0) with
      | Raise e => ret (d_register_except e)
      | Value v =>
          match py_int v with
          | Raise e => ret (d_register_except e)
          | Value value =>
              if negb ((0 <=? value) && (value <=? 65535)) then
                ret (BJson [("error", JStr "Value must be 0-65535")], 400)
              else
                let* ok := write_d_register address value in
                if ok then
                  ret (BJson [("success", JBool true);
                              ("address", JStr ("D" +:+ pretty address));
                              ("value", JInt value)], 200)
                else
                  let* c := plc_connected in
                  ret (BJson [("error", JStr ("Failed to write D" +:+ pretty address));
                              ("connected", JBool c)], 500)
          end
      end
  end.

(** [{f'D{start + i}': val for i, val in enumerate(values)}] *)
Definition range_dict (start : Z) (values : list Z) : gmap string Z :=
  foldl (fun acc iv => <["D" +:+ pretty (start + Z.of_nat (fst iv)) := snd iv]> acc)
        ∅ (enumerate values).

(** GET /api/d/range/<int:start>/<int:count> *)
Definition d_register_range (start count : Z) : M Reply :=
  if 100 <? count then
    ret (BJson [("error", JStr "Maximum 100 registers per request")], 400)
  else
    let* values := read_d_registers start count in
    match values with
    | Some vs => ret (BRange start count (range_dict start vs), 200)
    | None => ret (BJson [("error", JStr "Failed to read registers")], 500)
    end.

(** The POST branch shared, up to the letter and the write method, by
    [m_coil] and [y_output]. *)
Definition coil_post (letter : string) (write : Z -> bool -> M bool)
    (address : Z) (body : json) : M Reply :=
  match get body "state" (JBool false) with
  | Raise e => ret (BError e, 500)
  | Value v =>
      let state := py_bool v in
      let* ok := write address state in
      if ok then
        ret (BJson [("success", JBool true);
                    ("address", JStr (letter +:+ pretty address));
                    ("state", JBool state)], 200)
      else
        let* c := plc_connected in
        ret (BJson [("error", JStr ("Failed to write " +:+ letter +:+ pretty address));
                    ("connected", JBool c)], 500)
  end.

(** The GET branch shared by [m_coil], [y_output] and [x_input]. *)
Definition coil_get (letter : string) (read : Z -> Z -> M (option (list bool)))
    (address : Z) : M Reply :=
  let* values := read address 1 in
  match values with
  | Some (b :: _) =>
      ret (BJson [("success", JBool true);
                  ("address", JStr (letter +:+ pretty address));
                  ("state", JBool b)], 200)
  | Some [] => ret (BError IndexError, 500)
  | None =>
      let* c := plc_connected in
      ret (BJson [("error", JStr ("Failed to read " +:+ letter +:+ pretty address));
                  ("connected", JBool c)], 500)
  end.

(** GET|POST /api/m/<int:address> *)
Definition m_coil (method : Method) (address : Z) (body : json) : M Reply :=
  match method with
  | GET => coil_get "M" read_m_coils address
  | POST => coil_post "M" write_m_coil address body
  end.

(** GET|POST /api/y/<int:address> *)
Definition y_output (method : Method) (address : Z) (body : json) : M Reply :=
  match method with
  | GET => coil_get "Y" read_y_outputs address
  | POST => coil_post "Y" write_y_output address body
  end.

(** The [for address_str, state in coils.items()] loop of the bulk
    routes, with its two accumulators.  [int(address_str)] raising leaves
    the loop; the writes already made stay made. *)
Fixpoint bulk_loop (letter : string) (write : Z -> bool -> M bool)
    (items : list (string * json)) (results : gmap string bool)
    (success_count : Z) : M (Result (gmap string bool * Z)) :=
  match items with
  | [] => ret (Value (results, success_count))
  | (address_str, state) :: rest =>
      match int_of_str address_str with
      | None => ret (Raise ValueError)
      | Some address =>
          let* success := write address (py_bool state) in
          bulk_loop letter write rest
            (<[letter +:+ pretty address := success]> results)
            (if success then success_count + 1 else success_count)
      end
  end.

Definition bulk_write (key letter : string) (write : Z -> bool -> M bool)
    (body : json) : M Reply :=
  match get body key (JObj []) with
  | Raise e => ret (BError e, 500)
  | Value (JObj coils) =>
      let* looped := bulk_loop letter write coils ∅ 0 in
      match looped with
      | Raise e => ret (BError e, 500)
      | Value (results, success_count) =>
          let total := Z.of_nat (length coils) in
          ret (BBulk (success_count =? total) total success_count results, 200)
      end
  | Value _ => ret (BError AttributeError, 500)
  end.

(** POST /api/bulk/m *)
Definition bulk_write_m (body : json) : M Reply :=
  bulk_write "coils" "M" write_m_coil body.

(** POST /api/bulk/y *)
Definition bulk_write_y (body : json) : M Reply :=
  bulk_write "outputs" "Y" write_y_output body.

End Routes.

(** ** Worlds used by the examples *)

(** A device that acknowledges every write, answers a register read with
    the requested number of copies of [word], and a coil or input read
    with copies of [coil], as many as fill the bytes of the reply. *)
Definition steady_device (coil : bool) (word : Z) (history : list Event) : Response :=
  match last history with
  | Some (EReadHolding _ count) => Registers (replicate (Z.to_nat count) word)
  | Some (EReadCoils _ count) | Some (EReadDiscrete _ count) =>
      Bits (replicate (Z.to_nat (8 * ((count + 7) / 8))) coil)
  | Some (EWriteRegister _ _) | Some (EWriteCoils _ _) | Some (EWriteCoil _ _) => Ack
  | _ => Raises
  end.

Definition steady_bus (up coil : bool) (word : Z) : Bus :=
  mkBus (fun _ => ConnectReturns up) (steady_device coil word)
        (fun _ => "2024-01-01T00:00:00").

(** A device on which the multi-coil write is acknowledged but coils
    cannot be read back. *)
Definition blind_device (history : list Event) : Response :=
  match last history with
  | Some (EWriteCoils _ _) | Some (EWriteCoil _ _) => Ack
  | _ => ExceptionResponse
  end.

Definition blind_bus : Bus :=
  mkBus (fun _ => ConnectReturns true) blind_device (fun _ => "2024-01-01T00:00:00").

(** A device on which the multi-coil write is acknowledged without
    effect (every coil reads back off) and the single-coil write is
    answered with an error response when [refuse] is set, acknowledged
    otherwise. *)
Definition stuck_device (refuse : bool) (history : list Event) : Response :=
  match last history with
  | Some (EWriteCoils _ _) => Ack
  | Some (EReadCoils _ count) =>
      Bits (replicate (Z.to_nat (8 * ((count + 7) / 8))) false)
  | Some (EWriteCoil _ _) => if refuse then ExceptionResponse else Ack
  | _ => ExceptionResponse
  end.

Definition stuck_bus (refuse : bool) : Bus :=
  mkBus (fun _ => ConnectReturns true) (stuck_device refuse)
        (fun _ => "2024-01-01T00:00:00").

(** The process right after [plc = DeltaPLC()]. *)
Definition boot (b : Bus) : World := mkWorld b false false [].

(** The process after a successful [plc.connect()] at start-up. *)
Definition started (b : Bus) : World := mkWorld b true true [EConnect].

(** Digits-only reading of a string, enough for the examples. *)
Fixpoint digits (acc : Z) (s : string) : option Z :=
  match s with
  | EmptyString => Some acc
  | String c rest =>
      let n := Z.of_N (Ascii.N_of_ascii c) - 48 in
      if (0 <=? n) && (n <=? 9) then digits (10 * acc + n) rest else None
  end.

Definition decimal (s : string) : option Z :=
  match s with
  | EmptyString => None
  | _ => digits 0 s
  end.

Definition sample_world : World := started (steady_bus true true 7).

(** The names [get_status] adds to the coils-A sub-section. *)
Definition extra_names : list string := ["M100"; "M101"; "M102"; "M103"].

(** ** Vocabulary of the properties *)

(** In every state the process can reach, a raised [connected] flag
    comes with a client object. *)
Definition wf (w : World) : Prop := connected w = true -> client w = true.

(** The seven public read and write methods of [DeltaPLC], to quantify
    over them. *)
Inductive Operation : Type :=
| OpReadD (start count : Z)
| OpReadM (start count : Z)
| OpReadX (start count : Z)
| OpReadY (start count : Z)
| OpWriteD (address value : Z)
| OpWriteM (address : Z) (state : bool)
| OpWriteY (address : Z) (state : bool).

Inductive Outcome : Type :=
| Words (values : option (list Z))
| Flags (values : option (list bool))
| Written (ok : bool).

Definition run (op : Operation) : M Outcome :=
  match op with
  | OpReadD start count => let* r := read_d_registers start count in ret (Words r)
  | OpReadM start count => let* r := read_m_coils start count in ret (Flags r)
  | OpReadX start count => let* r := read_x_inputs start count in ret (Flags r)
  | OpReadY start count => let* r := read_y_outputs start count in ret (Flags r)
  | OpWriteD address value => let* r := write_d_register address value in ret (Written r)
  | OpWriteM address state => let* r := write_m_coil address state in ret (Written r)
  | OpWriteY address state => let* r := write_y_output address state in ret (Written r)
  end.

(** The typed failure of an operation: [None] for a read, [False] for a
    write. *)
Definition failure (op : Operation) : Outcome :=
  match op with
  | OpReadD _ _ => Words None
  | OpReadM _ _ | OpReadX _ _ | OpReadY _ _ => Flags None
  | OpWriteD _ _ | OpWriteM _ _ | OpWriteY _ _ => Written false
  end.

(** The region an operation works on and the logical offset it is given. *)
Definition region_base (op : Operation) : Z :=
  match op with
  | OpReadD _ _ | OpWriteD _ _ => D_OFFSET
  | OpReadM _ _ | OpWriteM _ _ => M_OFFSET
  | OpReadX _ _ => X_OFFSET
  | OpReadY _ _ | OpWriteY _ _ => Y_OFFSET
  end.

Definition logical_offset (op : Operation) : Z :=
  match op with
  | OpReadD a _ | OpReadM a _ | OpReadX a _ | OpReadY a _
  | OpWriteD a _ | OpWriteM a _ | OpWriteY a _ => a
  end.

(** The wire address of a transaction; the other events carry none. *)
Definition wire_address (e : Event) : option Z :=
  match e with
  | EReadHolding a _ | EReadCoils a _ | EReadDiscrete a _
  | EWriteRegister a _ | EWriteCoils a _ | EWriteCoil a _ => Some a
  | EConnect | EClose | ESleep _ => None
  end.

Definition is_transaction (e : Event) : bool :=
  match wire_address e with Some _ => true | None => false end.

Definition is_connect (e : Event) : bool :=
  match e with EConnect => true | _ => false end.

(** The events an operation appends to the history, found by running it. *)
Definition issued {A} (m : M A) (w : World) : list Event :=
  drop (length (trace w)) (trace (m w).2).

(** A successful read transaction, as the transport decodes a Modbus
    reply: the registers asked for, each an unsigned 16-bit word; or the
    coil bytes unpacked into bits, eight per byte, so padded up to the
    next multiple of eight. *)
Definition succeeds (request : Event) (reply : Response) : Prop :=
  match request, reply with
  | EReadHolding _ count, Registers regs =>
      Z.of_nat (length regs) = count /\ Forall (fun v => 0 <= v <= 65535) regs
  | EReadCoils _ count, Bits bits
  | EReadDiscrete _ count, Bits bits =>
      Z.of_nat (length bits) = 8 * ((count + 7) / 8)
  | _, _ => False
  end.

(** What it means for a sub-section to carry the values of a read: entry
    number [i] of the read sits under the name [letter ++ str(i)], no
    other name is bound, and the sub-section is empty exactly when the
    read returned no data. *)
Definition carries {A} (letter : string) (values : option (list A))
    (section : gmap string A) : Prop :=
  (forall i : nat, section !! (letter +:+ pretty i) = default [] values !! i) /\
  (forall k, is_Some (section !! k) -> exists i : nat, k = letter +:+ pretty i) /\
  (section = ∅ <-> truthy values = false).

(** The two replies of a register write that got past the range check. *)
Definition d_written (address value : Z) (ok connected_now : bool) : Reply :=
  if ok then
    (BJson [("success", JBool true); ("address", JStr ("D" +:+ pretty address));
            ("value", JInt value)], 200)
  else
    (BJson [("error", JStr ("Failed to write D" +:+ pretty address));
            ("connected", JBool connected_now)], 500).

(** The individual writes of a bulk request, one after the other, and the
    success flag each returns. *)
Fixpoint each_write (write : Z -> bool -> M bool) (entries : list (Z * bool))
    : M (list bool) :=
  match entries with
  | [] => ret []
  | (address, state) :: rest =>
      let* ok := write address state in
      let* oks := each_write write rest in
      ret (ok :: oks)
  end.

Definition succeeded_among (flags : list bool) : Z :=
  Z.of_nat (length (filter (fun ok => ok = true) flags)).

(** What the specification asks of the reply to a bulk write of
    [entries] whose individual writes returned [flags]. *)
Definition reports (letter : string) (entries : list (Z * bool))
    (flags : list bool) (reply : Reply) : Prop :=
  exists success total succeeded results,
    reply = (BBulk success total succeeded results, 200) /\
    total = Z.of_nat (length entries) /\
    succeeded = succeeded_among flags /\
    (success = true <-> succeeded = total) /\
    (forall i address state, entries !! i = Some (address, state) ->
       exists ok, flags !! i = Some ok /\
                  results !! (letter +:+ pretty address) = Some ok) /\
    (forall k, is_Some (results !! k) ->
       exists address, address ∈ entries.*1 /\ k = letter +:+ pretty address).

(** The payload as a map from addresses to desired states: every key
    read with [int], every value with [bool]. *)
Fixpoint entries_of (int_of_str : string -> option Z)
    (items : list (string * json)) : option (list (Z * bool)) :=
  match items with
  | [] => Some []
  | (address_str, state) :: rest =>
      match int_of_str address_str, entries_of int_of_str rest with
      | Some address, Some entries => Some ((address, py_bool state) :: entries)
      | _, _ => None
      end
  end.

(** ** plc_api.py: the remaining routes *)

(** GET /health *)
Definition health_check : M Reply :=
  let* c := plc_connected in
  ret (BJson [("status", JStr "running"); ("plc_connected", JBool c);
              ("api_version", JStr "1.0.0")], 200).

(** GET /api/x/<int:address> *)
Definition x_input (address : Z) : M Reply :=
  coil_get "X" read_x_inputs address.

(** The three connection routes.  They bear the names of the [DeltaPLC]
    methods they call, hence the module. *)
Module Api.

(** POST /api/reconnect *)
Definition reconnect : M Reply :=
  let* _ := disconnect in
  let* ok := connect in
  if ok then
    ret (BJson [("success", JBool true); ("message", JStr "Reconnected to PLC")], 200)
  else
    ret (BJson [("success", JBool false); ("error", JStr "Failed to reconnect")], 500).

(** POST /api/disconnect *)
Definition disconnect : M Reply :=
  let* _ := disconnect in
  ret (BJson [("success", JBool true); ("message", JStr "Disconnected from PLC")], 200).

(** POST /api/connect *)
Definition connect : M Reply :=
  let* ok := connect in
  if ok then
    ret (BJson [("success", JBool true); ("message", JStr "Connected to PLC")], 200)
  else
    ret (BJson [("success", JBool false); ("error", JStr "Failed to connect")], 500).

End Api.

(** A request to one of the routes above. *)
Inductive Request : Type :=
| GetHealth
| GetStatus
| GetD (address : Z)
| PostD (address : Z) (body : json)
| GetDRange (start count : Z)
| GetM (address : Z)
| PostM (address : Z) (body : json)
| GetY (address : Z)
| PostY (address : Z) (body : json)
| GetX (address : Z)
| PostConnect
| PostDisconnect
| PostReconnect
| PostBulkM (body : json)
| PostBulkY (body : json).

Definition handle (int_of_str : string -> option Z) (r : Request) : M Reply :=
  match r with
  | GetHealth => health_check
  | GetStatus => get_status
  | GetD address => d_register int_of_str GET address JNull
  | PostD address body => d_register int_of_str POST address body
  | GetDRange start count => d_register_range start count
  | GetM address => m_coil GET address JNull
  | PostM address body => m_coil POST address body
  | GetY address => y_output GET address JNull
  | PostY address body => y_output POST address body
  | GetX address => x_input address
  | PostConnect => Api.connect
  | PostDisconnect => Api.disconnect
  | PostReconnect => Api.reconnect
  | PostBulkM body => bulk_write_m int_of_str body
  | PostBulkY body => bulk_write_y int_of_str body
  end.

(** The requests of a session, one after the other. *)
Fixpoint serve (int_of_str : string -> option Z) (requests : list Request)
    : M (list Reply) :=
  match requests with
  | [] => ret []
  | r :: rest =>
      let* reply := handle int_of_str r in
      let* replies := serve int_of_str rest in
      ret (reply :: replies)
  end.

(** ** Vocabulary of the further properties *)

Definition is_write (e : Event) : bool :=
  match e with
  | EWriteRegister _ _ | EWriteCoils _ _ | EWriteCoil _ _ => true
  | _ => false
  end.

(** The transactions among the events an operation issues. *)
Definition transactions {A} (m : M A) (w : World) : list Event :=
  filter (fun e => is_transaction e = true) (issued m w).

(** A sub-section with exactly the [n] names [letter0 .. letter(n-1)]. *)
Definition indexed {A} (letter : string) (n : nat) (section : gmap string A)
    : Prop :=
  size section = n /\
  forall i : nat, is_Some (section !! (letter +:+ pretty i)) <-> (i < n)%nat.

(** A serial link on which no connect attempt ever succeeds. *)
Definition link_down (b : Bus) : Prop :=
  forall history, link b history <> ConnectReturns true.

(** A device that answers every read of a count that is not negative
    with a successful transaction. *)
Definition answers_reads (b : Bus) : Prop :=
  forall history request,
    match request with
    | EReadHolding _ count | EReadCoils _ count | EReadDiscrete _ count =>
        0 <= count -> succeeds request (device b (history ++ [request]))
    | _ => True
    end.

(** Whether a body is a JSON object, the only kind with a [get]. *)
Definition is_object (body : json) : bool :=
  match body with JObj _ => true | _ => false end.

(** A device that acknowledges the first coil write it sees and answers
    every later one with an error. *)
Definition tiring_device (history : list Event) : Response :=
  match history with
  | [EConnect; EWriteCoil _ _] => Ack
  | _ => ExceptionResponse
  end.

Definition tiring_bus : Bus :=
  mkBus (fun _ => ConnectReturns true) tiring_device (fun _ => "2024-01-01T00:00:00").

(** What every step of the gateway keeps: the invariant [wf], the
    environment, and the history so far, which is only ever extended. *)
Definition extends (w w' : World) : Prop :=
  (wf w -> wf w') /\ bus w' = bus w /\ trace w `prefix_of` trace w'.

Definition keeps {A} (m : M A) : Prop := forall w, extends w (m w).2.

(** The requests served by a GET route. *)
Definition is_get (r : Request) : bool :=
  match r with
  | GetHealth | GetStatus | GetD _ | GetDRange _ _ | GetM _ | GetY _ | GetX _ =>
      true
  | _ => false
  end.

(** A step that adds no write transaction to the history. *)
Definition adds_no_write (w w' : World) : Prop :=
  exists evs, trace w' = trace w ++ evs /\ Forall (fun e => is_write e = false) evs.

Definition quiet {A} (m : M A) : Prop := forall w, adds_no_write w (m w).2.

(** * Properties *)

(** ** The connection guard *)

Lemma wf_boot b : wf (boot b).
Proof. unfold wf, boot; simpl; congruence. Qed.

Lemma connect_spec w :
  let out := connect w in
  trace out.2 = trace w ++ [EConnect] /\ bus out.2 = bus w /\
  out.1 = connected out.2 /\ (out.1 = true -> client out.2 = true).
Proof.
  unfold connect; simpl.
  destruct (link (bus w) (trace w ++ [EConnect])) as [| |[|]]; simpl;
    intuition congruence.
Qed.

Lemma ensure_connected_true w w1 :
  wf w -> ensure_connected w = (true, w1) ->
  connected w1 = true /\ client w1 = true /\ bus w1 = bus w.
Proof.
  unfold ensure_connected, wf; intros Hwf H.
  destruct (connected w) eqn:Hc; simpl in H.
  - inversion H; subst; auto.
  - pose proof (connect_spec w) as (_ & Hb & Hf & Hcl).
    rewrite H in Hb, Hf, Hcl; simpl in *. auto.
Qed.

Lemma guard_passed {A} (x : A) (body : M A) w w1 :
  ensure_connected w = (true, w1) ->
  (let* ok := ensure_connected in if negb ok then ret x else body) w = body w1.
Proof. intros H; unfold bind; rewrite H; reflexivity. Qed.

Lemma call_online e w :
  client w = true ->
  call e w = (device (bus w) (trace w ++ [e]),
              mkWorld (bus w) true (connected w) (trace w ++ [e])).
Proof. intros H; unfold call; rewrite H; reflexivity. Qed.

Lemma ensure_connected_online w :
  connected w = true -> ensure_connected w = (true, w).
Proof. intros H; unfold ensure_connected; rewrite H; reflexivity. Qed.

(** ** The verified Coils-A write *)

Section WriteMCoil.

Variables (address : Z) (state : bool).
Variables (w w1 : World).
Hypothesis Hwf : wf w.
Hypothesis Hguard : ensure_connected w = (true, w1).

Let multi := EWriteCoils (M_OFFSET + address) [state].
Let readback := EReadCoils (M_OFFSET + address) 1.
Let single := EWriteCoil (M_OFFSET + address) state.
Let t1 := trace w1 ++ [multi].
Let t3 := trace w1 ++ [multi; ESleep 50; readback].
Let t4 := trace w1 ++ [multi; ESleep 50; readback; single].

(** What [write_m_coil] computes once the guard has passed, as one
    equation over the three histories it can produce. *)
Lemma write_m_coil_unfold :
  write_m_coil address state w =
  if accepted (device (bus w) t1) then
    if verified (slice_to 1 <$> bits_of (device (bus w) t3)) state then
      (true, mkWorld (bus w) true true t3)
    else (accepted (device (bus w) t4), mkWorld (bus w) true true t4)
  else (false, mkWorld (bus w) true true t1).
Proof.
  destruct (ensure_connected_true _ _ Hwf Hguard) as (Hc & Hcl & Hb).
  unfold write_m_coil. rewrite (guard_passed _ _ _ _ Hguard).
  unfold bind at 1. rewrite (call_online _ _ Hcl), Hb, Hc.
  fold multi t1.
  destruct (accepted (device (bus w) t1)); [|reflexivity].
  unfold bind, sleep, read_m_coils, _write_m_coil_alt, ensure_connected, call, ret; simpl.
  unfold t3, t4, t1, multi, readback, single.
  rewrite <- !app_assoc; simpl.
  destruct (verified _ _); [reflexivity|].
  unfold bind; simpl. rewrite <- !app_assoc; reflexivity.
Qed.

Lemma histories_differ : t3 <> t4.
Proof.
  unfold t3, t4; intros H. apply app_inv_head in H. discriminate H.
Qed.

(** C1. Once the connection guard has passed, [write_m_coil] first
    issues the multi-coil write.  If that transaction fails (the device
    answers with an error response, or the call raises) it returns
    failure and issues nothing else.  If it succeeds it sleeps 50 ms and
    re-reads the same offset with count 1; a read-back whose first bit
    equals the requested state gives success with no fallback write, a
    read-back whose first bit differs gives exactly one single-coil
    write, and the result is that write's: success when the device
    answers it without error, failure when the device answers with an
    error response or the call raises.  No history other than these three
    can arise, so nothing is retried. *)
Theorem write_m_coil_dual_path :
  let out := write_m_coil address state w in
  let fails (r : Response) := r = ExceptionResponse \/ r = Raises in
  (trace out.2 = t1 \/ trace out.2 = t3 \/ trace out.2 = t4) /\
  (fails (device (bus w) t1) -> out.1 = false /\ trace out.2 = t1) /\
  (~ fails (device (bus w) t1) ->
     forall b rest, device (bus w) t3 = Bits (b :: rest) ->
       (b = state -> out.1 = true /\ trace out.2 = t3) /\
       (b <> state ->
          trace out.2 = t4 /\
          (fails (device (bus w) t4) -> out.1 = false) /\
          (~ fails (device (bus w) t4) -> out.1 = true))).
Proof.
  simpl. rewrite write_m_coil_unfold.
  assert (Hacc : forall r : Response,
            (r = ExceptionResponse \/ r = Raises -> accepted r = false) /\
            (~ (r = ExceptionResponse \/ r = Raises) -> accepted r = true)).
  { intros r. split.
    - intros [-> | ->]; reflexivity.
    - intros Hr. destruct r; try reflexivity; exfalso; apply Hr; auto. }
  split; [|split].
  - destruct (accepted (device (bus w) t1)); simpl; auto.
    destruct (verified _ _); simpl; auto.
  - intros Hfail. by rewrite (proj1 (Hacc _) Hfail).
  - intros Hok b rest Hbits. rewrite (proj2 (Hacc _) Hok), Hbits. simpl.
    split; intros Hb.
    + subst b. rewrite Bool.eqb_reflx. auto.
    + assert (Bool.eqb b state = false) as ->
        by (destruct b, state; try reflexivity; congruence).
      simpl. split; [reflexivity|].
      split; intros H4; [by rewrite (proj1 (Hacc _) H4)
                        | by rewrite (proj2 (Hacc _) H4)].
Qed.

(** C9. After an accepted multi-coil write, a verifying read that
    returns no data (an error response, an exception, or no bits at all)
    leads to the single-coil fallback exactly as a mismatch does; the
    write succeeds without the fallback exactly when the read returned
    data whose first bit equals the requested state. *)
Theorem write_m_coil_fallback_when_verify_fails :
  accepted (device (bus w) t1) = true ->
  let out := write_m_coil address state w in
  let verify := slice_to 1 <$> bits_of (device (bus w) t3) in
  (truthy verify = false ->
     out.1 = accepted (device (bus w) t4) /\ trace out.2 = t4) /\
  (trace out.2 = t3 <-> exists rest, verify = Some (state :: rest)) /\
  (trace out.2 = t3 -> out.1 = true) /\
  (trace out.2 <> t3 ->
     out.1 = accepted (device (bus w) t4) /\ trace out.2 = t4).
Proof.
  intros Hacc; simpl. rewrite write_m_coil_unfold, Hacc.
  pose proof histories_differ as Hne.
  destruct (slice_to 1 <$> bits_of (device (bus w) t3)) as [[|b rest]|] eqn:Hv;
    simpl.
  - repeat split; auto; try congruence. intros [r Hr]; discriminate Hr.
  - destruct (Bool.eqb b state) eqn:Hb; simpl.
    + apply Bool.eqb_prop in Hb; subst b.
      repeat split; eauto; try congruence.
    + assert (b <> state) by (intros ->; rewrite Bool.eqb_reflx in Hb; discriminate).
      repeat split; auto; try congruence.
      intros [r Hr]; congruence.
  - repeat split; auto; try congruence. intros [r Hr]; discriminate Hr.
Qed.

End WriteMCoil.

(** ** Every read and write operation *)

Ltac step_world :=
  unfold run, write_m_coil, write_d_register, write_y_output,
    read_d_registers, read_m_coils, read_x_inputs, read_y_outputs,
    _write_m_coil_alt, ensure_connected, connect, call, sleep, bind, ret in *;
  simpl in *.

(** Case analysis on the two flags of the world and then on every answer
    of the environment that the goal depends on. *)
Ltac split_cases w :=
  destruct w as [?b [|] [|] ?t]; simpl in *;
  repeat (match goal with
  | |- context [link ?b ?t] => destruct (link b t) as [| |[|]] eqn:?
  | |- context [accepted ?r] => destruct (accepted r) eqn:?
  | |- context [verified ?v ?s] => destruct (verified v s) eqn:?
  end; simpl in *).

(** Every operation only ever extends the history. *)
Lemma run_extends op w : trace (run op w).2 = trace w ++ issued (run op) w.
Proof.
  unfold issued.
  assert (H : exists evs, trace (run op w).2 = trace w ++ evs).
  { destruct op; step_world; split_cases w; rewrite <- ?app_assoc;
      first [by exists []; rewrite app_nil_r | eexists; reflexivity]. }
  destruct H as [evs ->]. by rewrite drop_app_length.
Qed.

(** The invariant [wf] holds at start-up and is kept by every operation. *)
Lemma run_preserves_wf op w : wf w -> wf (run op w).2.
Proof.
  unfold wf. destruct op; step_world; split_cases w; auto; congruence.
Qed.

Ltac issued_cases w :=
  unfold issued; step_world; split_cases w;
  rewrite <- ?app_assoc; rewrite ?drop_app_length, ?drop_all; simpl.


(** C8. Every transaction an operation issues carries the wire address
    [region base + logical offset] of that operation; once the guard has
    passed, at least one such transaction is issued.  The bases are
    0x1000 (holding registers), 0x0800 (coils A), 0x0400 (discrete inputs)
    and 0x0500 (coils B), pairwise distinct. *)
Theorem wire_address_is_base_plus_offset (op : Operation) (w : World) :
  Forall (fun e => is_transaction e = true ->
                   wire_address e = Some (region_base op + logical_offset op))
         (issued (run op) w) /\
  (wf w -> (ensure_connected w).1 = true ->
     exists e rest, issued (run op) w = filter is_connect (issued (run op) w)
                                        ++ e :: rest /\
                    wire_address e = Some (region_base op + logical_offset op)) /\
  D_OFFSET = 4096 /\ M_OFFSET = 2048 /\ X_OFFSET = 1024 /\ Y_OFFSET = 1280 /\
  NoDup [D_OFFSET; M_OFFSET; X_OFFSET; Y_OFFSET].
Proof.
  split; [|split].
  - destruct op; issued_cases w;
      repeat (apply Forall_cons_2;
              [cbv [is_transaction wire_address]; intros; congruence|]);
      apply Forall_nil_2.
  - unfold wf. destruct op; issued_cases w; intros Hwf Hg;
      try discriminate; try (specialize (Hwf eq_refl); discriminate);
      eexists; eexists; (split; [reflexivity|reflexivity]).
  - repeat split; try reflexivity.
    unfold D_OFFSET, M_OFFSET, X_OFFSET, Y_OFFSET. compute_done.
Qed.

(** ** Reads *)

Section Reads.

Variables (start count : Z) (w w1 : World).
Hypothesis Hwf : wf w.
Hypothesis Hguard : ensure_connected w = (true, w1).
Hypothesis Hcount : 0 <= count.

Let reply (e : Event) : Response := device (bus w) (trace w1 ++ [e]).

Lemma bit_read_count (bits : list bool) :
  Z.of_nat (length bits) = 8 * ((count + 7) / 8) ->
  slice_to count bits = take (Z.to_nat count) bits /\
  Z.of_nat (length (slice_to count bits)) = count.
Proof.
  intros Hlen. unfold slice_to.
  destruct (0 <=? count) eqn:Hc; [|apply Z.leb_gt in Hc; lia].
  split; [reflexivity|]. rewrite length_take.
  assert (count <= 8 * ((count + 7) / 8)).
  { pose proof (Z.mul_div_le (count + 7) 8 ltac:(lia)).
    pose proof (Z.mod_pos_bound (count + 7) 8 ltac:(lia)).
    pose proof (Z.div_mod (count + 7) 8 ltac:(lia)). lia. }
  lia.
Qed.

(** C5. With the guard passed and a successful transaction,
    [read_d_registers] returns the [count] unsigned 16-bit words of the
    reply in their order, and [read_m_coils], [read_x_inputs] and
    [read_y_outputs] return the first [count] bits of the reply, exactly
    [count] of them. *)
Theorem reads_return_count_values :
  (succeeds (EReadHolding (D_OFFSET + start) count)
            (reply (EReadHolding (D_OFFSET + start) count)) ->
   exists values,
     (read_d_registers start count w).1 = Some values /\
     reply (EReadHolding (D_OFFSET + start) count) = Registers values /\
     Z.of_nat (length values) = count /\
     Forall (fun v => 0 <= v <= 65535) values) /\
  (succeeds (EReadCoils (M_OFFSET + start) count)
            (reply (EReadCoils (M_OFFSET + start) count)) ->
   exists bits,
     reply (EReadCoils (M_OFFSET + start) count) = Bits bits /\
     (read_m_coils start count w).1 = Some (take (Z.to_nat count) bits) /\
     Z.of_nat (length (take (Z.to_nat count) bits)) = count) /\
  (succeeds (EReadDiscrete (X_OFFSET + start) count)
            (reply (EReadDiscrete (X_OFFSET + start) count)) ->
   exists bits,
     reply (EReadDiscrete (X_OFFSET + start) count) = Bits bits /\
     (read_x_inputs start count w).1 = Some (take (Z.to_nat count) bits) /\
     Z.of_nat (length (take (Z.to_nat count) bits)) = count) /\
  (succeeds (EReadCoils (Y_OFFSET + start) count)
            (reply (EReadCoils (Y_OFFSET + start) count)) ->
   exists bits,
     reply (EReadCoils (Y_OFFSET + start) count) = Bits bits /\
     (read_y_outputs start count w).1 = Some (take (Z.to_nat count) bits) /\
     Z.of_nat (length (take (Z.to_nat count) bits)) = count).
Proof.
  destruct (ensure_connected_true _ _ Hwf Hguard) as (Hc & Hcl & Hb).
  unfold read_d_registers, read_m_coils, read_x_inputs, read_y_outputs.
  rewrite !(guard_passed _ _ _ _ Hguard).
  unfold bind, ret. rewrite !(call_online _ _ Hcl), Hb. fold reply.
  repeat split.
  - unfold reply at 1. unfold reply.
    destruct (device _ _) as [regs| | | |]; simpl; try tauto.
    intros [Hlen Hu16]. exists regs; auto.
  - unfold reply.
    destruct (device _ _) as [|bits| | |]; simpl; try tauto.
    intros Hlen. destruct (bit_read_count bits Hlen) as [Hs Hn].
    rewrite Hs in Hn |- *. exists bits; auto.
  - unfold reply.
    destruct (device _ _) as [|bits| | |]; simpl; try tauto.
    intros Hlen. destruct (bit_read_count bits Hlen) as [Hs Hn].
    rewrite Hs in Hn |- *. exists bits; auto.
  - unfold reply.
    destruct (device _ _) as [|bits| | |]; simpl; try tauto.
    intros Hlen. destruct (bit_read_count bits Hlen) as [Hs Hn].
    rewrite Hs in Hn |- *. exists bits; auto.
Qed.

End Reads.

(** ** The status snapshot *)

Section Fill.

Context {A : Type}.
Variable letter : string.

Let store (acc : gmap string A) (iv : nat * A) : gmap string A :=
  <[letter +:+ pretty iv.1 := iv.2]> acc.

Lemma name_inj (i j : nat) : letter +:+ pretty i = letter +:+ pretty j -> i = j.
Proof. intros H. apply (inj (String.app letter)) in H. by apply (inj pretty) in H. Qed.

Lemma store_lookup (values : list A) : forall (i0 : nat) acc (j : nat),
  foldl store acc (enumerate_from i0 values) !! (letter +:+ pretty j) =
  if decide (i0 <= j < i0 + length values)%nat
  then values !! (j - i0)%nat
  else acc !! (letter +:+ pretty j).
Proof.
  induction values as [|v rest IH]; intros i0 acc j; simpl length; simpl foldl.
  - case_decide; [lia|reflexivity].
  - rewrite IH. unfold store; simpl.
    destruct (decide (j = i0)) as [->|Hne].
    + rewrite lookup_insert_eq, Nat.sub_diag.
      repeat case_decide; try lia; reflexivity.
    + rewrite lookup_insert_ne by (intros H; apply name_inj in H; lia).
      repeat case_decide; try lia; try reflexivity.
      replace (j - i0)%nat with (S (j - S i0)) by lia. reflexivity.
Qed.

Lemma store_names (values : list A) : forall (i0 : nat) acc k,
  is_Some (foldl store acc (enumerate_from i0 values) !! k) ->
  is_Some (acc !! k) \/ exists i : nat, k = letter +:+ pretty i.
Proof.
  induction values as [|v rest IH]; intros i0 acc k; simpl; [auto|].
  intros H. apply IH in H as [H|H]; [|auto].
  unfold store in H; simpl in H.
  destruct (decide (letter +:+ pretty i0 = k)) as [<-|Hne]; [eauto|].
  rewrite lookup_insert_ne in H by done. auto.
Qed.

Lemma fill_carries (values : option (list A)) :
  carries letter values (fill letter values ∅).
Proof.
  unfold carries, fill.
  destruct values as [[|v rest]|]; simpl truthy; cbv iota.
  - split; [|split]; [intros i; by rewrite lookup_empty
                     | intros k [x Hx]; by rewrite lookup_empty in Hx | done].
  - simpl default. fold store. unfold enumerate.
    split; [|split].
    + intros i. rewrite store_lookup, Nat.sub_0_r.
      destruct (decide _) as [|Hout]; [done|].
      rewrite lookup_empty. symmetry. apply lookup_ge_None. lia.
    + intros k Hk. apply store_names in Hk as [[x Hx]|Hk]; [|done].
      by rewrite lookup_empty in Hx.
    + split; [|discriminate]. intros Hempty.
      pose proof (store_lookup (v :: rest) 0%nat ∅ 0%nat) as H0.
      rewrite Hempty, lookup_empty in H0. simpl in H0. discriminate H0.
  - split; [|split]; [intros i; by rewrite lookup_empty
                     | intros k [x Hx]; by rewrite lookup_empty in Hx | done].
Qed.

End Fill.

Lemma status_dict_lookups stamp flag d m x y :
  let st := status_dict stamp flag d m x y in
  st !! "timestamp" = Some (FStr stamp) /\
  st !! "connected" = Some (FBool flag) /\
  st !! "d_registers" = Some (FWords d) /\
  st !! "m_coils" = Some (FFlags m) /\
  st !! "x_inputs" = Some (FFlags x) /\
  st !! "y_outputs" = Some (FFlags y).
Proof.
  unfold status_dict; simpl.
  repeat split; rewrite ?lookup_insert_ne by done; apply lookup_insert_eq.
Qed.

Lemma get_all_status_unfold (w : World) :
  let r1 := read_d_registers 0 10 w in
  let r2 := read_m_coils 0 10 r1.2 in
  let r3 := read_x_inputs 0 8 r2.2 in
  let r4 := read_y_outputs 0 8 r3.2 in
  get_all_status w =
  (Some (status_dict (clock (bus w) (trace w)) (connected w)
           (fill "D" r1.1 ∅) (fill "M" r2.1 ∅)
           (fill "X" r3.1 ∅) (fill "Y" r4.1 ∅)), r4.2).
Proof.
  simpl. unfold get_all_status, bind, ret.
  destruct (read_d_registers 0 10 w) as [d_values wd]; simpl.
  destruct (read_m_coils 0 10 wd) as [m_values wm]; simpl.
  destruct (read_x_inputs 0 8 wm) as [x_values wx]; simpl.
  destruct (read_y_outputs 0 8 wx) as [y_values wy]; reflexivity.
Qed.

(** C3, as stated, fails: with the serial link down all four region
    reads fail, and the aggregate still holds all four sub-sections,
    each an empty dictionary; a failed read does not remove its
    sub-section from the result. *)
Lemma failed_reads_keep_their_sections :
  let w := boot (steady_bus false true 7) in
  (read_d_registers 0 10 w).1 = None /\
  (read_m_coils 0 10 w).1 = None /\
  (read_x_inputs 0 8 w).1 = None /\
  (read_y_outputs 0 8 w).1 = None /\
  exists st, (get_all_status w).1 = Some st /\
    st !! "d_registers" = Some (FWords ∅) /\
    st !! "m_coils" = Some (FFlags ∅) /\
    st !! "x_inputs" = Some (FFlags ∅) /\
    st !! "y_outputs" = Some (FFlags ∅).
Proof.
  simpl. repeat split; try reflexivity.
  eexists; split; [reflexivity|]. apply status_dict_lookups.
Qed.

(** C3, amended.  Whatever the four region reads return,
    [get_all_status] returns an aggregate, never a failure.  The
    aggregate holds the timestamp and the connection flag, both taken on
    entry, and all four region sub-sections: that of a region whose read
    (10 registers, 10 coils A, 8 inputs, 8 coils B, each from offset 0)
    returned data carries exactly that data, and that of a region whose
    read failed is present and empty. *)
Theorem get_all_status_sections (w : World) :
  let r1 := read_d_registers 0 10 w in
  let r2 := read_m_coils 0 10 r1.2 in
  let r3 := read_x_inputs 0 8 r2.2 in
  let r4 := read_y_outputs 0 8 r3.2 in
  exists st d m x y,
    get_all_status w = (Some st, r4.2) /\
    st !! "timestamp" = Some (FStr (clock (bus w) (trace w))) /\
    st !! "connected" = Some (FBool (connected w)) /\
    st !! "d_registers" = Some (FWords d) /\ carries "D" r1.1 d /\
    st !! "m_coils" = Some (FFlags m) /\ carries "M" r2.1 m /\
    st !! "x_inputs" = Some (FFlags x) /\ carries "X" r3.1 x /\
    st !! "y_outputs" = Some (FFlags y) /\ carries "Y" r4.1 y.
Proof.
  simpl. rewrite get_all_status_unfold.
  do 5 eexists. split; [reflexivity|].
  pose proof (status_dict_lookups (clock (bus w) (trace w)) (connected w)
    (fill "D" (read_d_registers 0 10 w).1 ∅)
    (fill "M" (read_m_coils 0 10 (read_d_registers 0 10 w).2).1 ∅)
    (fill "X" (read_x_inputs 0 8
                 (read_m_coils 0 10 (read_d_registers 0 10 w).2).2).1 ∅)
    (fill "Y" (read_y_outputs 0 8
                 (read_x_inputs 0 8
                    (read_m_coils 0 10 (read_d_registers 0 10 w).2).2).2).1 ∅))
    as (Ht & Hc & Hd & Hm & Hx & Hy).
  repeat split; try eassumption; apply fill_carries.
Qed.

(** ** GET /api/status *)

(** C2, as stated, fails: on a connected gateway whose device answers
    every read, the route issues no read at coils-B offset 100 and binds
    no name beyond Y7 in the coils-B sub-section; the only read at offset
    100 goes to the coils-A base, and M100 lands in the coils-A
    sub-section. *)
Lemma get_status_reads_no_coils_B_block :
  let out := get_status sample_world in
  (EReadCoils (Y_OFFSET + 100) 4 ∉ trace out.2) /\
  last (trace out.2) = Some (EReadCoils (M_OFFSET + 100) 4) /\
  exists st m y, out.1 = (BStatus st, 200) /\
    st !! "y_outputs" = Some (FFlags y) /\
    y !! "Y100" = None /\ size y = 8%nat /\
    st !! "m_coils" = Some (FFlags m) /\
    m !! "M100" = Some true.
Proof.
  split; [|split].
  - vm_compute. intros H.
    repeat (apply elem_of_cons in H as [H|H]; [discriminate H|]).
    by apply elem_of_nil in H.
  - reflexivity.
  - do 3 eexists. split; [reflexivity|].
    split; [reflexivity|]. split; [reflexivity|]. split; [reflexivity|].
    split; reflexivity.
Qed.

(** C2, amended.  After the snapshot of the four prefixes, with the
    connection up, [get_status] reads four coils at offset 100 of the
    coils-A region; when the reply carries four bits it answers 200 with
    the snapshot in which the coils-A sub-section binds M100..M103 to
    those bits, in order, and is otherwise unchanged, like the rest of
    the snapshot. *)
Theorem get_status_merges_coils_A_block (w w1 : World)
    (st : gmap string Field) (b0 b1 b2 b3 : bool) (rest : list bool) :
  get_all_status w = (Some st, w1) ->
  connected w1 = true -> client w1 = true ->
  device (bus w1) (trace w1 ++ [EReadCoils (M_OFFSET + 100) 4])
    = Bits (b0 :: b1 :: b2 :: b3 :: rest) ->
  exists m m',
    st !! "m_coils" = Some (FFlags m) /\
    (get_status w).1 = (BStatus (<["m_coils" := FFlags m']> st), 200) /\
    trace (get_status w).2 = trace w1 ++ [EReadCoils (M_OFFSET + 100) 4] /\
    m' !! "M100" = Some b0 /\ m' !! "M101" = Some b1 /\
    m' !! "M102" = Some b2 /\ m' !! "M103" = Some b3 /\
    (forall k, k ∉ extra_names -> m' !! k = m !! k).
Proof.
  intros Hall Hc Hcl Hbits.
  assert (Hm : exists m, st !! "m_coils" = Some (FFlags m)).
  { rewrite get_all_status_unfold in Hall. inversion Hall; subst.
    eexists. apply status_dict_lookups. }
  destruct Hm as [m Hm].
  assert (Hrun : get_status w =
    ((BStatus (<["m_coils" := FFlags
        (<["M103" := b3]> (<["M102" := b2]>
           (<["M101" := b1]> (<["M100" := b0]> m))))]> st), 200),
     mkWorld (bus w1) true true (trace w1 ++ [EReadCoils (M_OFFSET + 100) 4]))).
  { unfold get_status, bind at 1. rewrite Hall.
    unfold bind at 1, read_m_coils.
    rewrite (guard_passed _ _ _ _ (ensure_connected_online _ Hc)).
    unfold bind at 1. rewrite (call_online _ _ Hcl), Hbits, Hc. simpl.
    rewrite Hm. reflexivity. }
  rewrite Hrun. exists m. eexists. split; [exact Hm|].
  split; [reflexivity|]. simpl.
  repeat split.
  - rewrite !lookup_insert_ne by done. apply lookup_insert_eq.
  - rewrite !lookup_insert_ne by done. apply lookup_insert_eq.
  - rewrite !lookup_insert_ne by done. apply lookup_insert_eq.
  - apply lookup_insert_eq.
  - intros k Hk. unfold extra_names in Hk.
    rewrite !lookup_insert_ne; [done| | | |];
      intros <-; apply Hk; rewrite !elem_of_cons; auto 10.
Qed.

(** ** Writes through the facade *)

Lemma write_d_register_online address value w w1 :
  wf w -> ensure_connected w = (true, w1) ->
  let t := trace w1 ++ [EWriteRegister (D_OFFSET + address) value] in
  write_d_register address value w =
  (accepted (device (bus w) t), mkWorld (bus w) true true t).
Proof.
  intros Hwf Hg. destruct (ensure_connected_true _ _ Hwf Hg) as (Hc & Hcl & Hb).
  unfold write_d_register. rewrite (guard_passed _ _ _ _ Hg).
  unfold bind, ret. by rewrite (call_online _ _ Hcl), Hb, Hc.
Qed.

Lemma write_y_output_online address state w w1 :
  wf w -> ensure_connected w = (true, w1) ->
  let t := trace w1 ++ [EWriteCoil (Y_OFFSET + address) state] in
  write_y_output address state w =
  (accepted (device (bus w) t), mkWorld (bus w) true true t).
Proof.
  intros Hwf Hg. destruct (ensure_connected_true _ _ Hwf Hg) as (Hc & Hcl & Hb).
  unfold write_y_output. rewrite (guard_passed _ _ _ _ Hg).
  unfold bind, ret. by rewrite (call_online _ _ Hcl), Hb, Hc.
Qed.

Lemma write_m_coil_online address state w w1 :
  wf w -> ensure_connected w = (true, w1) ->
  exists rest,
    trace (write_m_coil address state w).2 =
    trace w1 ++ EWriteCoils (M_OFFSET + address) [state] :: rest.
Proof.
  intros Hwf Hg. rewrite (write_m_coil_unfold _ _ _ _ Hwf Hg).
  repeat case_match; simpl; eauto.
Qed.

Section Facade.

Variable int_of_str : string -> option Z.

(** C4, as stated, fails: the route converts the posted value with
    [int], which truncates a fraction toward zero, before it checks the
    range.  A posted -0.5 lies outside [0, 65535] and is written as 0, a
    posted 65535.5 lies outside and is written as 65535, and a posted 3.5
    lies inside and is not passed on unchanged but written as 3. *)
Lemma register_write_truncates_fractions :
  let post (v : json) :=
    d_register decimal POST 200 (JObj [("value", v)]) sample_world in
  ((post (JFloat (-1) 2)).1.2 = 200 /\
   trace (post (JFloat (-1) 2)).2 =
     [EConnect; EWriteRegister (D_OFFSET + 200) 0]) /\
  ((post (JFloat 131071 2)).1.2 = 200 /\
   trace (post (JFloat 131071 2)).2 =
     [EConnect; EWriteRegister (D_OFFSET + 200) 65535]) /\
  ((post (JFloat 7 2)).1.2 = 200 /\
   trace (post (JFloat 7 2)).2 =
     [EConnect; EWriteRegister (D_OFFSET + 200) 3]).
Proof. repeat split. Qed.

(** C4, amended.  A register write whose value, converted with [int],
    lies outside [0, 65535] is answered 400 and leaves the world as it
    was: no transaction, not even a connect attempt.  A converted value
    inside the range goes to [write_d_register] as converted (an integer
    as it was posted), so that with the guard passed the one transaction
    issued is the register write of that very value.  A range read of
    more than 100 registers is answered 400 and leaves the world as it
    was. *)
Theorem range_checks_precede_device (address value start count : Z)
    (body field : json) (w : World) :
  get body "value" (JInt 0) = Value field ->
  py_int int_of_str field = Value value ->
  (value < 0 \/ 65535 < value ->
     d_register int_of_str POST address body w =
     ((BJson [("error", JStr "Value must be 0-65535")], 400), w)) /\
  (0 <= value <= 65535 ->
     let written := write_d_register address value w in
     d_register int_of_str POST address body w =
       (d_written address value written.1 (connected written.2), written.2) /\
     forall w1, wf w -> ensure_connected w = (true, w1) ->
       trace written.2 = trace w1 ++ [EWriteRegister (D_OFFSET + address) value]) /\
  (100 < count ->
     d_register_range start count w =
     ((BJson [("error", JStr "Maximum 100 registers per request")], 400), w)).
Proof.
  intros Hget Hint. unfold d_register, d_register_range. rewrite Hget, Hint.
  repeat split.
  - intros Hout.
    destruct ((0 <=? value) && (value <=? 65535)) eqn:Hin; [lia|reflexivity].
  - destruct ((0 <=? value) && (value <=? 65535)) eqn:Hin; [|lia]. simpl.
    unfold bind, plc_connected, d_written, ret.
    destruct (write_d_register address value w) as [[|] w']; reflexivity.
  - intros w1 Hwf Hg. by rewrite (write_d_register_online _ _ _ _ Hwf Hg).
  - intros Hbig. destruct (100 <? count) eqn:Hc; [reflexivity|lia].
Qed.

(** C10. A write request whose body is an object without the expected
    field is not turned away: it is answered exactly as the same body
    with the default supplied ([value] 0, [state] false), never with a
    400, and it runs the write of that default, so that with the guard
    passed the write transaction of the default is issued. *)
Theorem missing_field_takes_default (address : Z)
    (fields : list (string * json)) (w : World) :
  (assoc "value" fields = None ->
     let out := d_register int_of_str POST address (JObj fields) w in
     out = d_register int_of_str POST address
             (JObj (("value", JInt 0) :: fields)) w /\
     out.1.2 <> 400 /\
     out.2 = (write_d_register address 0 w).2 /\
     forall w1, wf w -> ensure_connected w = (true, w1) ->
       trace out.2 = trace w1 ++ [EWriteRegister (D_OFFSET + address) 0]) /\
  (assoc "state" fields = None ->
     let out := m_coil POST address (JObj fields) w in
     out = m_coil POST address (JObj (("state", JBool false) :: fields)) w /\
     out.1.2 <> 400 /\
     out.2 = (write_m_coil address false w).2 /\
     forall w1, wf w -> ensure_connected w = (true, w1) ->
       exists rest, trace out.2 =
         trace w1 ++ EWriteCoils (M_OFFSET + address) [false] :: rest) /\
  (assoc "state" fields = None ->
     let out := y_output POST address (JObj fields) w in
     out = y_output POST address (JObj (("state", JBool false) :: fields)) w /\
     out.1.2 <> 400 /\
     out.2 = (write_y_output address false w).2 /\
     forall w1, wf w -> ensure_connected w = (true, w1) ->
       trace out.2 = trace w1 ++ [EWriteCoil (Y_OFFSET + address) false]).
Proof.
  split; [|split]; intros Hmiss; simpl.
  - unfold d_register, get. simpl assoc. rewrite Hmiss. simpl.
    unfold bind, plc_connected, ret.
    assert (Hw : forall w1, wf w -> ensure_connected w = (true, w1) ->
              trace (write_d_register address 0 w).2 =
              trace w1 ++ [EWriteRegister (D_OFFSET + address) 0]).
    { intros w1 Hwf Hg. by rewrite (write_d_register_online _ _ _ _ Hwf Hg). }
    destruct (write_d_register address 0 w) as [[|] w']; simpl in *;
      repeat split; auto; discriminate.
  - unfold m_coil, coil_post, get. simpl assoc. rewrite Hmiss. simpl.
    unfold bind, plc_connected, ret.
    pose proof (write_m_coil_online address false w) as Hw.
    destruct (write_m_coil address false w) as [[|] w']; simpl in *;
      repeat split; auto; discriminate.
  - unfold y_output, coil_post, get. simpl assoc. rewrite Hmiss. simpl.
    unfold bind, plc_connected, ret.
    assert (Hw : forall w1, wf w -> ensure_connected w = (true, w1) ->
              trace (write_y_output address false w).2 =
              trace w1 ++ [EWriteCoil (Y_OFFSET + address) false]).
    { intros w1 Hwf Hg. by rewrite (write_y_output_online _ _ _ _ Hwf Hg). }
    destruct (write_y_output address false w) as [[|] w']; simpl in *;
      repeat split; auto; discriminate.
Qed.

End Facade.

(** ** Bulk writes *)

Section Bulk.

Variable int_of_str : string -> option Z.

Variable letter : string.
Variable write : Z -> bool -> M bool.

Let record (acc : gmap string bool) (p : Z * bool) : gmap string bool :=
  <[letter +:+ pretty p.1 := p.2]> acc.

Lemma address_name_inj (a b : Z) :
  letter +:+ pretty a = letter +:+ pretty b -> a = b.
Proof. intros H. apply (inj (String.app letter)) in H. by apply (inj pretty) in H. Qed.

Lemma each_write_length entries : forall w,
  length (each_write write entries w).1 = length entries.
Proof.
  induction entries as [|[a s] rest IH]; intros w; simpl; [done|].
  unfold bind, ret. destruct (write a s w) as [ok w'].
  specialize (IH w'). destruct (each_write write rest w') as [oks w'']; simpl in *.
  by rewrite IH.
Qed.

Lemma bulk_loop_unfold items : forall entries results count w,
  entries_of int_of_str items = Some entries ->
  bulk_loop int_of_str letter write items results count w =
  let done := each_write write entries w in
  (Value (foldl record results (zip entries.*1 done.1),
          count + succeeded_among done.1), done.2).
Proof.
  induction items as [|[address_str state] rest IH];
    intros entries results count w Hent; simpl in Hent.
  - inversion Hent; subst. simpl. unfold ret, succeeded_among. simpl.
    by rewrite Z.add_0_r.
  - destruct (int_of_str address_str) as [address|] eqn:Hint; [|discriminate].
    destruct (entries_of int_of_str rest) as [tail|] eqn:Htail; [|discriminate].
    inversion Hent; subst; clear Hent.
    simpl. rewrite Hint. unfold bind, ret.
    destruct (write address (py_bool state) w) as [ok w'].
    rewrite (IH tail _ _ _ eq_refl). simpl.
    destruct (each_write write tail w') as [oks w'']; simpl.
    f_equal. f_equal. f_equal.
    unfold succeeded_among. destruct ok.
    + rewrite filter_cons_True by done. simpl length. lia.
    + by rewrite filter_cons_False by done.
Qed.

Lemma record_other (pairs : list (Z * bool)) : forall acc address,
  address ∉ pairs.*1 ->
  foldl record acc pairs !! (letter +:+ pretty address)
  = acc !! (letter +:+ pretty address).
Proof.
  induction pairs as [|[a ok] rest IH]; intros acc address Hnot; simpl; [done|].
  rewrite fmap_cons, not_elem_of_cons in Hnot. destruct Hnot as [Hne Hrest].
  rewrite IH by done. unfold record; simpl.
  apply lookup_insert_ne. intros H. apply address_name_inj in H.
  simpl in *. congruence.
Qed.

Lemma record_lookup (pairs : list (Z * bool)) : forall acc i address ok,
  NoDup pairs.*1 -> pairs !! i = Some (address, ok) ->
  foldl record acc pairs !! (letter +:+ pretty address) = Some ok.
Proof.
  induction pairs as [|[a b] rest IH]; intros acc i address ok Hnd Hi; [done|].
  rewrite fmap_cons in Hnd. apply NoDup_cons in Hnd as [Hfresh Hnd].
  destruct i as [|i]; simpl in *.
  - inversion Hi; subst. rewrite record_other by done.
    unfold record; simpl. apply lookup_insert_eq.
  - eapply IH; eauto.
Qed.

Lemma record_names (pairs : list (Z * bool)) : forall acc k,
  is_Some (foldl record acc pairs !! k) ->
  is_Some (acc !! k) \/
  exists address, address ∈ pairs.*1 /\ k = letter +:+ pretty address.
Proof.
  induction pairs as [|[a b] rest IH]; intros acc k H; simpl in *; [auto|].
  apply IH in H as [H|(address & Hin & ->)].
  - unfold record in H; simpl in H.
    destruct (decide (letter +:+ pretty a = k)) as [<-|Hne].
    + right. exists a. split; [apply elem_of_cons; auto|done].
    + rewrite lookup_insert_ne in H by done. auto.
  - right. exists address. split; [apply elem_of_cons; auto|done].
Qed.

Lemma bulk_write_reports (key : string) (body : json)
    (items : list (string * json)) (entries : list (Z * bool)) (w : World) :
  get body key (JObj []) = Value (JObj items) ->
  entries_of int_of_str items = Some entries ->
  NoDup entries.*1 ->
  let done := each_write write entries w in
  let out := bulk_write int_of_str key letter write body w in
  reports letter entries done.1 out.1 /\ out.2 = done.2.
Proof.
  intros Hget Hent Hnd. simpl. unfold bulk_write. rewrite Hget.
  unfold bind. rewrite (bulk_loop_unfold _ _ _ _ _ Hent). simpl.
  pose proof (each_write_length entries w) as Hlen.
  destruct (each_write write entries w) as [flags w']; simpl in *.
  split; [|done].
  assert (Hitems : length items = length entries).
  { clear -Hent. revert entries Hent.
    induction items as [|[k v] rest IH]; intros entries H; simpl in H.
    - by inversion H.
    - destruct (int_of_str k); [|discriminate].
      destruct (entries_of int_of_str rest) as [tail|]; [|discriminate].
      inversion H; subst. simpl. by rewrite (IH tail eq_refl). }
  unfold ret. do 4 eexists. split; [reflexivity|].
  rewrite Hitems. repeat split.
  - apply Z.eqb_eq.
  - apply Z.eqb_eq.
  - intros i address state Hi.
    destruct (lookup_lt_is_Some_2 flags i) as [ok Hok].
    { rewrite Hlen. eapply lookup_lt_Some; eauto. }
    exists ok. split; [done|].
    eapply (record_lookup _ _ i).
    + by rewrite fst_zip by (rewrite length_fmap; lia).
    + apply lookup_zip_with_Some. exists address, ok.
      split; [done|]. split; [|done]. by rewrite list_lookup_fmap, Hi.
  - intros k Hk. apply record_names in Hk as [[x Hx]|(address & Hin & ->)].
    + by rewrite lookup_empty in Hx.
    + exists address. split; [|done].
      rewrite fst_zip in Hin by (rewrite length_fmap; lia). done.
Qed.

End Bulk.

(** C7. For a bulk payload that is a finite map from addresses to
    desired states (every key reads as an address, no address twice),
    both bulk routes answer 200 with: under the name of each entry's
    address the flag its write returned, and no other name; [succeeded]
    the number of writes that returned success; [total] the number of
    entries; and [success] true exactly when the two are equal.  The
    writes are those of the entries, in order. *)
Theorem bulk_write_counts_successes (int_of_str : string -> option Z)
    (body : json) (items : list (string * json)) (entries : list (Z * bool))
    (w : World) :
  entries_of int_of_str items = Some entries ->
  NoDup entries.*1 ->
  (get body "coils" (JObj []) = Value (JObj items) ->
     let done := each_write write_m_coil entries w in
     let out := bulk_write_m int_of_str body w in
     reports "M" entries done.1 out.1 /\ out.2 = done.2) /\
  (get body "outputs" (JObj []) = Value (JObj items) ->
     let done := each_write write_y_output entries w in
     let out := bulk_write_y int_of_str body w in
     reports "Y" entries done.1 out.1 /\ out.2 = done.2).
Proof.
  intros Hent Hnd. split; intros Hget.
  - by apply (bulk_write_reports int_of_str "M" write_m_coil "coils" body items).
  - by apply (bulk_write_reports int_of_str "Y" write_y_output "outputs" body items).
Qed.

(** ** Instances on concrete worlds *)

Lemma wf_sample_world : wf sample_world.
Proof. intros _; reflexivity. Defined.

Lemma wf_blind_world : wf (started blind_bus).
Proof. intros _; reflexivity. Defined.

Lemma wf_stuck_world refuse : wf (started (stuck_bus refuse)).
Proof. intros _; reflexivity. Defined.

(** Coil M100 set on three devices: one that reads back what was
    written (success after the read-back, no single-coil write); one on
    which the coil reads back off and the single-coil write is refused
    (one fallback write, failure); one on which the coil reads back off
    and the single-coil write is acknowledged (one fallback write,
    success). *)
Lemma write_m_coil_dual_path_witness :
  wf sample_world /\
  ensure_connected sample_world = (true, sample_world) /\
  ((write_m_coil 100 true sample_world).1 = true /\
   trace (write_m_coil 100 true sample_world).2 =
     [EConnect; EWriteCoils (M_OFFSET + 100) [true]; ESleep 50;
      EReadCoils (M_OFFSET + 100) 1]) /\
  (trace (write_m_coil 100 true (started (stuck_bus true))).2 =
     [EConnect; EWriteCoils (M_OFFSET + 100) [true]; ESleep 50;
      EReadCoils (M_OFFSET + 100) 1; EWriteCoil (M_OFFSET + 100) true] /\
   (write_m_coil 100 true (started (stuck_bus true))).1 = false) /\
  (trace (write_m_coil 100 true (started (stuck_bus false))).2 =
     [EConnect; EWriteCoils (M_OFFSET + 100) [true]; ESleep 50;
      EReadCoils (M_OFFSET + 100) 1; EWriteCoil (M_OFFSET + 100) true] /\
   (write_m_coil 100 true (started (stuck_bus false))).1 = true).
Proof.
  assert (Hack : ~ (Ack = ExceptionResponse \/ Ack = Raises))
    by (intros [H|H]; discriminate H).
  assert (Hdiff : false <> true) by (intros H; discriminate H).
  split; [exact wf_sample_world|]. split; [reflexivity|].
  split; [|split].
  - destruct (write_m_coil_dual_path 100 true sample_world sample_world
                wf_sample_world eq_refl) as (_ & _ & H).
    exact (proj1 (H Hack true (replicate 7 true) eq_refl) eq_refl).
  - destruct (write_m_coil_dual_path 100 true (started (stuck_bus true))
                (started (stuck_bus true)) (wf_stuck_world true) eq_refl)
      as (_ & _ & H).
    destruct (proj2 (H Hack false (replicate 7 false) eq_refl) Hdiff)
      as (Ht & Hno & _).
    split; [exact Ht|]. exact (Hno (or_introl eq_refl)).
  - destruct (write_m_coil_dual_path 100 true (started (stuck_bus false))
                (started (stuck_bus false)) (wf_stuck_world false) eq_refl)
      as (_ & _ & H).
    destruct (proj2 (H Hack false (replicate 7 false) eq_refl) Hdiff)
      as (Ht & _ & Hyes).
    split; [exact Ht|]. exact (Hyes Hack).
Defined.

(** Coil M100 set on a device whose coils cannot be read back: the
    single-coil write is made and decides the result. *)
Lemma write_m_coil_fallback_when_verify_fails_witness :
  wf (started blind_bus) /\
  ensure_connected (started blind_bus) = (true, started blind_bus) /\
  (write_m_coil 100 true (started blind_bus)).1 = true /\
  trace (write_m_coil 100 true (started blind_bus)).2 =
    [EConnect; EWriteCoils (M_OFFSET + 100) [true]; ESleep 50;
     EReadCoils (M_OFFSET + 100) 1; EWriteCoil (M_OFFSET + 100) true].
Proof.
  split; [exact wf_blind_world|]. split; [reflexivity|].
  destruct (write_m_coil_fallback_when_verify_fails 100 true
              (started blind_bus) (started blind_bus)
              wf_blind_world eq_refl eq_refl) as (H & _).
  exact (H eq_refl).
Defined.


Lemma wire_address_is_base_plus_offset_witness :
  wf sample_world /\
  (ensure_connected sample_world).1 = true /\
  exists e rest,
    issued (run (OpWriteY 1 true)) sample_world =
      filter is_connect (issued (run (OpWriteY 1 true)) sample_world) ++ e :: rest /\
    wire_address e = Some (Y_OFFSET + 1).
Proof.
  split; [exact wf_sample_world|]. split; [reflexivity|].
  destruct (wire_address_is_base_plus_offset (OpWriteY 1 true) sample_world)
    as (_ & H & _).
  exact (H wf_sample_world eq_refl).
Defined.

Lemma reads_return_count_values_witness :
  wf sample_world /\
  ensure_connected sample_world = (true, sample_world) /\
  0 <= 10 /\
  (exists values, (read_d_registers 0 10 sample_world).1 = Some values /\
                  Z.of_nat (length values) = 10) /\
  (exists bits, (read_m_coils 0 10 sample_world).1 = Some (take 10 bits) /\
                Z.of_nat (length (take 10 bits)) = 10) /\
  (exists bits, (read_x_inputs 0 10 sample_world).1 = Some (take 10 bits) /\
                Z.of_nat (length (take 10 bits)) = 10) /\
  (exists bits, (read_y_outputs 0 10 sample_world).1 = Some (take 10 bits) /\
                Z.of_nat (length (take 10 bits)) = 10).
Proof.
  assert (Hpos : 0 <= 10) by (intros H; discriminate H).
  split; [exact wf_sample_world|]. split; [reflexivity|]. split; [exact Hpos|].
  destruct (reads_return_count_values 0 10 sample_world sample_world
              wf_sample_world eq_refl Hpos) as (Hd & Hm & Hx & Hy).
  split; [|split; [|split]].
  - destruct Hd as (values & Hv & _ & Hn & _).
    + split; [reflexivity|]. vm_compute. repeat constructor; discriminate.
    + exists values; auto.
  - destruct Hm as (bits & _ & Hv & Hn); [reflexivity|]. exists bits; auto.
  - destruct Hx as (bits & _ & Hv & Hn); [reflexivity|]. exists bits; auto.
  - destruct Hy as (bits & _ & Hv & Hn); [reflexivity|]. exists bits; auto.
Defined.

Lemma get_status_merges_coils_A_block_witness :
  exists (st : gmap string Field) (m' : gmap string bool),
    (get_status sample_world).1 = (BStatus st, 200) /\
    st !! "m_coils" = Some (FFlags m') /\
    m' !! "M100" = Some true /\ m' !! "M103" = Some true.
Proof.
  edestruct (get_status_merges_coils_A_block sample_world)
    as (m & m' & _ & H & _ & H100 & _ & _ & H103 & _);
    [reflexivity | reflexivity | reflexivity | reflexivity |].
  eexists; exists m'. split; [exact H|].
  split; [apply lookup_insert_eq|]. auto.
Defined.

Lemma range_checks_precede_device_witness :
  get (JObj [("value", JInt 70000)]) "value" (JInt 0) = Value (JInt 70000) /\
  py_int decimal (JInt 70000) = Value 70000 /\
  d_register decimal POST 200 (JObj [("value", JInt 70000)]) sample_world =
    ((BJson [("error", JStr "Value must be 0-65535")], 400), sample_world) /\
  d_register_range 0 101 sample_world =
    ((BJson [("error", JStr "Maximum 100 registers per request")], 400),
     sample_world).
Proof.
  split; [reflexivity|]. split; [reflexivity|].
  destruct (range_checks_precede_device decimal 200 70000 0 101
              (JObj [("value", JInt 70000)]) (JInt 70000) sample_world
              eq_refl eq_refl) as (Hout & _ & Hbig).
  split; [apply Hout; right; reflexivity | apply Hbig; reflexivity].
Defined.

Lemma missing_field_takes_default_witness :
  assoc "value" ([] : list (string * json)) = None /\
  (d_register decimal POST 200 (JObj []) sample_world).1.2 <> 400 /\
  trace (d_register decimal POST 200 (JObj []) sample_world).2 =
    [EConnect; EWriteRegister (D_OFFSET + 200) 0].
Proof.
  split; [reflexivity|].
  destruct (missing_field_takes_default decimal 200 [] sample_world)
    as (H & _).
  destruct (H eq_refl) as (_ & Hcode & _ & Htrace).
  split; [exact Hcode|]. exact (Htrace sample_world wf_sample_world eq_refl).
Defined.

(** The bulk write of {0: true, 3: false} against coils B. *)
Lemma bulk_write_counts_successes_witness :
  entries_of decimal [("0", JBool true); ("3", JBool false)]
    = Some [(0, true); (3, false)] /\
  NoDup [(0, true); (3, false)].*1 /\
  reports "Y" [(0, true); (3, false)]
    (each_write write_y_output [(0, true); (3, false)] sample_world).1
    (bulk_write_y decimal
       (JObj [("outputs", JObj [("0", JBool true); ("3", JBool false)])])
       sample_world).1.
Proof.
  assert (Hnd : NoDup [(0, true); (3, false)].*1).
  { apply NoDup_cons. split.
    - intros H. apply elem_of_cons in H as [H|H]; [discriminate H|].
      by apply elem_of_nil in H.
    - apply NoDup_cons. split; [apply not_elem_of_nil | apply NoDup_nil_2]. }
  split; [reflexivity|]. split; [exact Hnd|].
  destruct (bulk_write_counts_successes decimal
              (JObj [("outputs", JObj [("0", JBool true); ("3", JBool false)])])
              [("0", JBool true); ("3", JBool false)]
              [(0, true); (3, false)] sample_world eq_refl Hnd) as (_ & H).
  exact (proj1 (H eq_refl)).
Defined.

(** * Further properties of the device interface *)

(** X1. After any read or write operation the [connected] flag is what
    the connection guard returned: a transaction that errors or raises
    never lowers it.  In particular an operation started with the flag up
    leaves it up, whatever the device answers. *)
Theorem operation_leaves_flag_as_guard_set_it (op : Operation) (w : World) :
  connected (run op w).2 = (ensure_connected w).1 /\
  (connected w = true ->
     connected (run op w).2 = true /\ client (run op w).2 = client w).
Proof.
  split.
  - destruct op; step_world; split_cases w; reflexivity.
  - destruct op; step_world; split_cases w; intros Hc;
      try discriminate Hc; auto.
Qed.

Lemma operation_leaves_flag_as_guard_set_it_witness :
  connected (started blind_bus) = true /\
  (run (OpReadD 0 10) (started blind_bus)).1 = Words None /\
  connected (run (OpReadD 0 10) (started blind_bus)).2 = true.
Proof.
  split; [reflexivity|]. split; [reflexivity|].
  exact (proj1 (proj2 (operation_leaves_flag_as_guard_set_it
                         (OpReadD 0 10) (started blind_bus)) eq_refl)).
Defined.

(** X2. A read operation issues at most one transaction, the read of its
    own region at base + start, and never a write; when it returns data,
    that read was issued. *)
Theorem reads_issue_one_read (start count : Z) (w : World) :
  let single (op : Operation) (e : Event) :=
    (transactions (run op) w = [] \/ transactions (run op) w = [e]) /\
    ((run op w).1 <> failure op -> transactions (run op) w = [e]) in
  single (OpReadD start count) (EReadHolding (D_OFFSET + start) count) /\
  single (OpReadM start count) (EReadCoils (M_OFFSET + start) count) /\
  single (OpReadX start count) (EReadDiscrete (X_OFFSET + start) count) /\
  single (OpReadY start count) (EReadCoils (Y_OFFSET + start) count).
Proof.
  simpl. unfold transactions.
  repeat split; revert w;
    intros w; issued_cases w; auto; intros H; try (by destruct H); auto.
Qed.

(** X3. The register write and the coils-B write are direct: besides a
    connect attempt of the guard they issue nothing but their write
    transaction (no settle wait, no read-back), and that at most once;
    they issue it exactly once whenever the guard passes with a client in
    place, and they report success only if it was issued. *)
Theorem direct_writes_issue_one_write (address value : Z) (state : bool)
    (w : World) :
  let direct (op : Operation) (e : Event) :=
    Forall (fun e' => e' = EConnect \/ e' = e) (issued (run op) w) /\
    (transactions (run op) w = [] \/ transactions (run op) w = [e]) /\
    ((ensure_connected w).1 = true -> client (ensure_connected w).2 = true ->
       transactions (run op) w = [e]) /\
    ((run op w).1 = Written true -> transactions (run op) w = [e]) in
  direct (OpWriteD address value) (EWriteRegister (D_OFFSET + address) value) /\
  direct (OpWriteY address state) (EWriteCoil (Y_OFFSET + address) state).
Proof.
  simpl. unfold transactions.
  repeat split; issued_cases w;
    try (intros H; discriminate H); try (intros _ H; discriminate H); auto;
    repeat (apply Forall_cons_2; [auto|]); apply Forall_nil_2.
Qed.

(** X4. Whatever the device answers, a coil or input read that returns
    data returns a prefix of the bits of the reply to its own request, at
    most [count] of them; a register read returns the registers of the
    reply as they are, without cutting them to [count]. *)
Theorem reads_return_what_the_reply_holds (start count : Z) (w : World) :
  0 <= count ->
  let reply (e : Event) := device (bus w) (trace (ensure_connected w).2 ++ [e]) in
  (forall l, (read_d_registers start count w).1 = Some l ->
     reply (EReadHolding (D_OFFSET + start) count) = Registers l) /\
  (forall l, (read_m_coils start count w).1 = Some l ->
     exists bits, reply (EReadCoils (M_OFFSET + start) count) = Bits bits /\
       l = take (Z.to_nat count) bits /\ Z.of_nat (length l) <= count) /\
  (forall l, (read_x_inputs start count w).1 = Some l ->
     exists bits, reply (EReadDiscrete (X_OFFSET + start) count) = Bits bits /\
       l = take (Z.to_nat count) bits /\ Z.of_nat (length l) <= count) /\
  (forall l, (read_y_outputs start count w).1 = Some l ->
     exists bits, reply (EReadCoils (Y_OFFSET + start) count) = Bits bits /\
       l = take (Z.to_nat count) bits /\ Z.of_nat (length l) <= count).
Proof.
  intros Hcount. simpl.
  assert (Hslice : forall bits : list bool,
            slice_to count bits = take (Z.to_nat count) bits /\
            Z.of_nat (length (take (Z.to_nat count) bits)) <= count).
  { intros bits. unfold slice_to.
    destruct (0 <=? count) eqn:Hc; [|apply Z.leb_gt in Hc; lia].
    split; [reflexivity|]. rewrite length_take. lia. }
  repeat split; step_world; split_cases w; intros l Hl; try discriminate Hl;
    match type of Hl with
    | context [device ?b ?t] => destruct (device b t) eqn:Hdev
    end; simpl in Hl; try discriminate Hl; inversion Hl; subst;
    first [ reflexivity
          | eexists; split; [reflexivity|];
            destruct (Hslice bits) as [-> Hn]; auto ].
Qed.

Lemma reads_return_what_the_reply_holds_witness :
  0 <= 3 /\
  (read_m_coils 0 3 sample_world).1 = Some [true; true; true] /\
  exists bits,
    device (bus sample_world)
      (trace (ensure_connected sample_world).2 ++ [EReadCoils (M_OFFSET + 0) 3])
      = Bits bits /\
    [true; true; true] = take (Z.to_nat 3) bits /\
    Z.of_nat (length [true; true; true]) <= 3.
Proof.
  assert (Hpos : 0 <= 3) by (intros H; discriminate H).
  split; [exact Hpos|]. split; [reflexivity|].
  exact (proj1 (proj2 (reads_return_what_the_reply_holds 0 3 sample_world Hpos))
           [true; true; true] eq_refl).
Defined.

(** * Further properties of the status snapshot *)

Lemma issued_app {A} (m : M A) (w : World) (evs : list Event) :
  trace (m w).2 = trace w ++ evs -> issued m w = evs.
Proof. intros H. unfold issued. by rewrite H, drop_app_length. Qed.

(** In every branch, [get_status] leaves the world as the snapshot
    followed by the read of M100..M103 left it. *)
Lemma get_status_world (w : World) :
  (get_status w).2 = (read_m_coils 100 4 (get_all_status w).2).2.
Proof.
  unfold get_status, bind at 1. rewrite get_all_status_unfold. simpl.
  unfold bind at 1.
  destruct (read_m_coils 100 4 _) as [m100_103 w']. simpl.
  destruct (truthy m100_103); [|reflexivity].
  rewrite (proj1 (proj2 (proj2 (proj2 (status_dict_lookups _ _ _ _ _ _))))).
  destruct m100_103 as [[|b0 [|b1 [|b2 [|b3 rest]]]]|]; reflexivity.
Qed.

Lemma reads_online (start count : Z) (w : World) :
  connected w = true -> client w = true ->
  let after (e : Event) := mkWorld (bus w) true true (trace w ++ [e]) in
  let reply (e : Event) := device (bus w) (trace w ++ [e]) in
  read_d_registers start count w =
    (registers_of (reply (EReadHolding (D_OFFSET + start) count)),
     after (EReadHolding (D_OFFSET + start) count)) /\
  read_m_coils start count w =
    (slice_to count <$> bits_of (reply (EReadCoils (M_OFFSET + start) count)),
     after (EReadCoils (M_OFFSET + start) count)) /\
  read_x_inputs start count w =
    (slice_to count <$> bits_of (reply (EReadDiscrete (X_OFFSET + start) count)),
     after (EReadDiscrete (X_OFFSET + start) count)) /\
  read_y_outputs start count w =
    (slice_to count <$> bits_of (reply (EReadCoils (Y_OFFSET + start) count)),
     after (EReadCoils (Y_OFFSET + start) count)).
Proof.
  intros Hc Hcl. simpl.
  unfold read_d_registers, read_m_coils, read_x_inputs, read_y_outputs.
  rewrite !(guard_passed _ _ _ _ (ensure_connected_online _ Hc)).
  unfold bind, ret. by rewrite !(call_online _ _ Hcl), Hc.
Qed.

(** X5. With the connection up, the snapshot issues exactly four
    transactions, in this order: 10 holding registers, 10 coils A,
    8 discrete inputs, 8 coils B, each from offset 0; GET /api/status
    adds the read of 4 coils A at offset 100 and nothing else.  No write
    and no connect attempt is made, and the connection stays up. *)
Theorem snapshot_reads_in_order (w : World) :
  connected w = true -> client w = true ->
  let reads := [EReadHolding (D_OFFSET + 0) 10; EReadCoils (M_OFFSET + 0) 10;
                EReadDiscrete (X_OFFSET + 0) 8; EReadCoils (Y_OFFSET + 0) 8] in
  issued get_all_status w = reads /\
  issued get_status w = reads ++ [EReadCoils (M_OFFSET + 100) 4] /\
  connected (get_status w).2 = true.
Proof.
  intros Hc Hcl. simpl.
  assert (Hall : (get_all_status w).2 =
    mkWorld (bus w) true true
      (trace w ++ [EReadHolding (D_OFFSET + 0) 10; EReadCoils (M_OFFSET + 0) 10;
                   EReadDiscrete (X_OFFSET + 0) 8; EReadCoils (Y_OFFSET + 0) 8])).
  { rewrite get_all_status_unfold. simpl.
    rewrite (proj1 (reads_online 0 10 w Hc Hcl)). simpl.
    unfold read_m_coils, read_x_inputs, read_y_outputs,
      bind, ensure_connected, call, ret; simpl.
    by rewrite <- !app_assoc. }
  assert (Hst : (get_status w).2 =
    mkWorld (bus w) true true
      (trace w ++ [EReadHolding (D_OFFSET + 0) 10; EReadCoils (M_OFFSET + 0) 10;
                   EReadDiscrete (X_OFFSET + 0) 8; EReadCoils (Y_OFFSET + 0) 8;
                   EReadCoils (M_OFFSET + 100) 4])).
  { rewrite get_status_world, Hall.
    unfold read_m_coils, bind, ensure_connected, call, ret; simpl.
    by rewrite <- !app_assoc. }
  split; [|split].
  - apply issued_app. by rewrite Hall.
  - apply issued_app. by rewrite Hst.
  - by rewrite Hst.
Qed.

Lemma snapshot_reads_in_order_witness :
  connected sample_world = true /\ client sample_world = true /\
  issued get_status sample_world =
    [EReadHolding (D_OFFSET + 0) 10; EReadCoils (M_OFFSET + 0) 10;
     EReadDiscrete (X_OFFSET + 0) 8; EReadCoils (Y_OFFSET + 0) 8;
     EReadCoils (M_OFFSET + 100) 4].
Proof.
  split; [reflexivity|]. split; [reflexivity|].
  exact (proj1 (proj2 (snapshot_reads_in_order sample_world eq_refl eq_refl))).
Defined.

Lemma reads_offline (b : Bus) (cl : bool) (t : list Event) (start count : Z) :
  link_down b ->
  let w := mkWorld b cl false t in
  let w' := mkWorld b match link b (t ++ [EConnect]) with
                      | CtorRaises => cl
                      | _ => true
                      end false (t ++ [EConnect]) in
  read_d_registers start count w = (None, w') /\
  read_m_coils start count w = (None, w') /\
  read_x_inputs start count w = (None, w') /\
  read_y_outputs start count w = (None, w').
Proof.
  intros Hdown. simpl.
  unfold read_d_registers, read_m_coils, read_x_inputs, read_y_outputs,
    bind, ensure_connected, connect, ret; simpl.
  pose proof (Hdown (t ++ [EConnect])) as Hno.
  destruct (link b (t ++ [EConnect])) as [| |[|]]; simpl; auto.
  by destruct Hno.
Qed.

(** X6. With the flag down and a serial link on which no connect attempt
    succeeds, the snapshot makes one connect attempt per region read, four
    in all, and no transaction; it still returns the aggregate, with the
    flag false and four empty sub-sections.  GET /api/status makes a fifth
    attempt for its extra read and answers 200 with that empty aggregate,
    not an error. *)
Theorem snapshot_with_link_down (w : World) :
  link_down (bus w) -> connected w = false ->
  let empty := status_dict (clock (bus w) (trace w)) false ∅ ∅ ∅ ∅ in
  (get_all_status w).1 = Some empty /\
  issued get_all_status w = replicate 4 EConnect /\
  (get_status w).1 = (BStatus empty, 200) /\
  issued get_status w = replicate 5 EConnect /\
  connected (get_status w).2 = false.
Proof.
  destruct w as [b cl co t]; simpl. intros Hdown ->.
  pose proof (fun cl t s c => reads_offline b cl t s c Hdown) as Hread.
  simpl in Hread.
  assert (Hall : exists cl',
    get_all_status (mkWorld b cl false t) =
    (Some (status_dict (clock b t) false ∅ ∅ ∅ ∅),
     mkWorld b cl' false (t ++ replicate 4 EConnect))).
  { rewrite get_all_status_unfold; simpl.
    rewrite (proj1 (Hread cl t 0 10)); simpl.
    rewrite (proj1 (proj2 (Hread _ _ 0 10))); simpl.
    rewrite (proj1 (proj2 (proj2 (Hread _ _ 0 8)))); simpl.
    rewrite (proj2 (proj2 (proj2 (Hread _ _ 0 8)))); simpl.
    rewrite <- !app_assoc. eexists; reflexivity. }
  destruct Hall as [cl' Hall].
  assert (Hst : exists cl'',
    get_status (mkWorld b cl false t) =
    ((BStatus (status_dict (clock b t) false ∅ ∅ ∅ ∅), 200),
     mkWorld b cl'' false (t ++ replicate 5 EConnect))).
  { unfold get_status, bind at 1. rewrite Hall. unfold bind at 1.
    rewrite (proj1 (proj2 (Hread _ _ 100 4))); simpl.
    rewrite <- !app_assoc. eexists; reflexivity. }
  destruct Hst as [cl'' Hst].
  rewrite Hall, Hst; simpl. repeat split.
  - apply issued_app. by rewrite Hall.
  - apply issued_app. by rewrite Hst.
Qed.

Lemma link_down_steady : link_down (steady_bus false true 7).
Proof. intros history H; discriminate H. Defined.

Lemma snapshot_with_link_down_witness :
  link_down (bus (boot (steady_bus false true 7))) /\
  connected (boot (steady_bus false true 7)) = false /\
  issued get_status (boot (steady_bus false true 7)) = replicate 5 EConnect /\
  (get_status (boot (steady_bus false true 7))).1.2 = 200.
Proof.
  split; [exact link_down_steady|]. split; [reflexivity|].
  destruct (snapshot_with_link_down (boot (steady_bus false true 7))
              link_down_steady eq_refl) as (_ & _ & Hreply & Hissued & _).
  split; [exact Hissued|]. by rewrite Hreply.
Defined.

(** X7. The connection flag of the snapshot is the flag on entry.  When
    the gateway enters disconnected and the lazy reconnect of the first
    region read succeeds, the four reads are issued and the gateway ends
    connected, yet the aggregate says [connected: false]. *)
Theorem snapshot_flag_predates_reconnect (w : World) :
  connected w = false ->
  link (bus w) (trace w ++ [EConnect]) = ConnectReturns true ->
  exists st,
    (get_all_status w).1 = Some st /\
    st !! "connected" = Some (FBool false) /\
    connected (get_all_status w).2 = true /\
    issued get_all_status w =
      [EConnect; EReadHolding (D_OFFSET + 0) 10; EReadCoils (M_OFFSET + 0) 10;
       EReadDiscrete (X_OFFSET + 0) 8; EReadCoils (Y_OFFSET + 0) 8] /\
    st !! "d_registers" =
      Some (FWords (fill "D"
        (registers_of (device (bus w)
           (trace w ++ [EConnect; EReadHolding (D_OFFSET + 0) 10]))) ∅)).
Proof.
  destruct w as [b cl co t]; simpl. intros -> Hlink.
  assert (Hrun : exists st,
    get_all_status (mkWorld b cl false t) =
    (Some st, mkWorld b true true
       (t ++ [EConnect; EReadHolding (D_OFFSET + 0) 10;
              EReadCoils (M_OFFSET + 0) 10; EReadDiscrete (X_OFFSET + 0) 8;
              EReadCoils (Y_OFFSET + 0) 8])) /\
    st !! "connected" = Some (FBool false) /\
    st !! "d_registers" =
      Some (FWords (fill "D"
        (registers_of (device b
           (t ++ [EConnect; EReadHolding (D_OFFSET + 0) 10]))) ∅))).
  { rewrite get_all_status_unfold; simpl.
    assert (Hfirst : read_d_registers 0 10 (mkWorld b cl false t) =
      (registers_of (device b (t ++ [EConnect; EReadHolding (D_OFFSET + 0) 10])),
       mkWorld b true true (t ++ [EConnect; EReadHolding (D_OFFSET + 0) 10]))).
    { unfold read_d_registers, bind, ensure_connected, connect, call, ret; simpl.
      rewrite Hlink; simpl. by rewrite <- !app_assoc. }
    rewrite Hfirst; simpl.
    unfold read_m_coils, read_x_inputs, read_y_outputs,
      bind, ensure_connected, call, ret; simpl.
    rewrite <- !app_assoc; simpl.
    eexists; split; [reflexivity|]. split; apply status_dict_lookups. }
  destruct Hrun as (st & Hrun & Hflag & Hd).
  exists st. rewrite Hrun; simpl. repeat split; auto.
  apply issued_app. by rewrite Hrun.
Qed.

Lemma snapshot_flag_predates_reconnect_witness :
  connected (boot (steady_bus true true 7)) = false /\
  exists st,
    (get_all_status (boot (steady_bus true true 7))).1 = Some st /\
    st !! "connected" = Some (FBool false) /\
    connected (get_all_status (boot (steady_bus true true 7))).2 = true.
Proof.
  split; [reflexivity|].
  destruct (snapshot_flag_predates_reconnect (boot (steady_bus true true 7))
              eq_refl eq_refl) as (st & H1 & H2 & H3 & _).
  exists st. auto.
Defined.

(** X8. When the read of M100..M103 returns no data, GET /api/status
    answers 200 with the plain snapshot: the failure of that read is not
    reported.  When it returns between one and three bits, the route
    answers 500. *)
Theorem status_route_when_block_read_fails (w w1 : World)
    (st : gmap string Field) :
  get_all_status w = (Some st, w1) ->
  (truthy (read_m_coils 100 4 w1).1 = false ->
     (get_status w).1 = (BStatus st, 200)) /\
  (forall l, (read_m_coils 100 4 w1).1 = Some l ->
     (0 < length l < 4)%nat ->
     (get_status w).1 = (BError IndexError, 500)).
Proof.
  intros Hall.
  assert (Hm : exists m, st !! "m_coils" = Some (FFlags m)).
  { rewrite get_all_status_unfold in Hall. inversion Hall; subst.
    eexists. apply status_dict_lookups. }
  destruct Hm as [m Hm].
  assert (Hrun : (get_status w).1 =
    let m100_103 := (read_m_coils 100 4 w1).1 in
    if truthy m100_103 then
      match m100_103 with
      | Some (b0 :: b1 :: b2 :: b3 :: _) =>
          (BStatus (<["m_coils" := FFlags
             (<["M103" := b3]> (<["M102" := b2]>
                (<["M101" := b1]> (<["M100" := b0]> m))))]> st), 200)
      | _ => (BError IndexError, 500)
      end
    else (BStatus st, 200)).
  { unfold get_status, bind at 1. rewrite Hall. unfold bind at 1.
    destruct (read_m_coils 100 4 w1) as [m100_103 w2]; simpl.
    destruct (truthy m100_103); [|reflexivity]. rewrite Hm.
    destruct m100_103 as [[|b0 [|b1 [|b2 [|b3 rest]]]]|]; reflexivity. }
  rewrite Hrun; simpl. split.
  - intros ->. reflexivity.
  - intros l -> Hlen.
    destruct l as [|b0 [|b1 [|b2 [|b3 rest]]]]; simpl in *;
      try lia; reflexivity.
Qed.

Lemma status_route_when_block_read_fails_witness :
  exists st w1,
    get_all_status (started blind_bus) = (Some st, w1) /\
    truthy (read_m_coils 100 4 w1).1 = false /\
    (get_status (started blind_bus)).1 = (BStatus st, 200).
Proof.
  eexists; eexists. split; [reflexivity|]. split; [reflexivity|].
  refine (proj1 (status_route_when_block_read_fails (started blind_bus) _ _
                   eq_refl) eq_refl).
Defined.

Section FillSize.

Context {A : Type}.
Variable letter : string.

Lemma store_size (values : list A) : forall (i0 : nat) (acc : gmap string A),
  (forall j : nat, (i0 <= j)%nat -> acc !! (letter +:+ pretty j) = None) ->
  size (foldl (fun acc iv => <[letter +:+ pretty iv.1 := iv.2]> acc)
              acc (enumerate_from i0 values))
  = (size acc + length values)%nat.
Proof.
  induction values as [|v rest IH]; intros i0 acc Hfresh; simpl; [lia|].
  rewrite IH.
  - rewrite map_size_insert_None by (apply Hfresh; lia). lia.
  - intros j Hj. rewrite lookup_insert_ne; [apply Hfresh; lia|].
    intros H. apply name_inj in H. lia.
Qed.

Lemma fill_indexed (l : list A) :
  indexed letter (length l) (fill letter (Some l) ∅).
Proof.
  destruct (fill_carries letter (Some l)) as (Hlook & _ & _).
  split.
  - unfold fill. destruct l as [|v rest]; simpl truthy; cbv iota; [done|].
    unfold enumerate. simpl default. rewrite store_size; [done|].
    intros j _. apply lookup_empty.
  - intros i. rewrite Hlook. simpl. apply lookup_lt_is_Some.
Qed.

End FillSize.

(** With the replies of a device that answers reads, what the four bit
    and register reads hand to the snapshot. *)
Lemma answered_bits (request : Event) (count : Z) (r : Response) :
  0 <= count ->
  (exists a, request = EReadCoils a count \/ request = EReadDiscrete a count) ->
  succeeds request r ->
  exists l, slice_to count <$> bits_of r = Some l /\ length l = Z.to_nat count.
Proof.
  intros Hc [a [->| ->]] Hs; destruct r as [|bits| | |]; simpl in Hs; try done;
    destruct (bit_read_count count Hc bits Hs) as [Hslice Hlen];
    exists (slice_to count bits); (split; [done|lia]).
Qed.

(** X9. With the connection up and a device that answers every read
    with a successful transaction, the snapshot holds exactly the names
    D0..D9, M0..M9, X0..X7 and Y0..Y7, every register value in it is an
    unsigned 16-bit word, and GET /api/status answers 200 with a coils-A
    sub-section of fourteen names. *)
Theorem snapshot_of_answering_device (w : World) :
  answers_reads (bus w) -> connected w = true -> client w = true ->
  exists st d m x y,
    (get_all_status w).1 = Some st /\
    st !! "d_registers" = Some (FWords d) /\ indexed "D" 10 d /\
    (forall k v, d !! k = Some v -> 0 <= v <= 65535) /\
    st !! "m_coils" = Some (FFlags m) /\ indexed "M" 10 m /\
    st !! "x_inputs" = Some (FFlags x) /\ indexed "X" 8 x /\
    st !! "y_outputs" = Some (FFlags y) /\ indexed "Y" 8 y /\
    exists st' m',
      (get_status w).1 = (BStatus st', 200) /\
      st' !! "m_coils" = Some (FFlags m') /\ size m' = 14%nat.
Proof.
  destruct w as [b cl co t]; simpl. intros Hdev -> ->.
  pose proof (Hdev t (EReadHolding (D_OFFSET + 0) 10)) as H1.
  pose proof (Hdev (t ++ [EReadHolding (D_OFFSET + 0) 10])
                (EReadCoils (M_OFFSET + 0) 10)) as H2.
  pose proof (Hdev ((t ++ [EReadHolding (D_OFFSET + 0) 10])
                      ++ [EReadCoils (M_OFFSET + 0) 10])
                (EReadDiscrete (X_OFFSET + 0) 8)) as H3.
  pose proof (Hdev (((t ++ [EReadHolding (D_OFFSET + 0) 10])
                       ++ [EReadCoils (M_OFFSET + 0) 10])
                      ++ [EReadDiscrete (X_OFFSET + 0) 8])
                (EReadCoils (Y_OFFSET + 0) 8)) as H4.
  pose proof (Hdev ((((t ++ [EReadHolding (D_OFFSET + 0) 10])
                        ++ [EReadCoils (M_OFFSET + 0) 10])
                       ++ [EReadDiscrete (X_OFFSET + 0) 8])
                      ++ [EReadCoils (Y_OFFSET + 0) 8])
                (EReadCoils (M_OFFSET + 100) 4)) as H5.
  cbv beta iota in H1, H2, H3, H4, H5.
  specialize (H1 ltac:(lia)). specialize (H2 ltac:(lia)).
  specialize (H3 ltac:(lia)). specialize (H4 ltac:(lia)).
  specialize (H5 ltac:(lia)). simpl in H1.
  destruct (device b (t ++ [EReadHolding (D_OFFSET + 0) 10]))
    as [regs| | | |] eqn:Hd; try done.
  destruct H1 as [Hlen Hu16].
  apply (answered_bits _ 10) in H2 as (lm & Hm & Hlm); [|lia|eauto].
  apply (answered_bits _ 8) in H3 as (lx & Hx & Hlx); [|lia|eauto].
  apply (answered_bits _ 8) in H4 as (ly & Hy & Hly); [|lia|eauto].
  apply (answered_bits _ 4) in H5 as (lb & Hb & Hlb); [|lia|eauto].
  assert (Hall : get_all_status (mkWorld b true true t) =
    (Some (status_dict (clock b t) true
             (fill "D" (Some regs) ∅) (fill "M" (Some lm) ∅)
             (fill "X" (Some lx) ∅) (fill "Y" (Some ly) ∅)),
     mkWorld b true true
       ((((t ++ [EReadHolding (D_OFFSET + 0) 10])
            ++ [EReadCoils (M_OFFSET + 0) 10])
           ++ [EReadDiscrete (X_OFFSET + 0) 8])
          ++ [EReadCoils (Y_OFFSET + 0) 8]))).
  { rewrite get_all_status_unfold; simpl.
    unfold read_d_registers, read_m_coils, read_x_inputs, read_y_outputs,
      bind, ensure_connected, call, ret; simpl.
    by rewrite Hd, Hm, Hx, Hy. }
  pose proof (status_dict_lookups (clock b t) true
                (fill "D" (Some regs) ∅) (fill "M" (Some lm) ∅)
                (fill "X" (Some lx) ∅) (fill "Y" (Some ly) ∅))
    as (_ & _ & Ld & Lm & Lx & Ly).
  pose proof (fill_indexed "D" regs) as Id.
  pose proof (fill_indexed "M" lm) as Im.
  pose proof (fill_indexed "X" lx) as Ix.
  pose proof (fill_indexed "Y" ly) as Iy.
  replace (length regs) with 10%nat in Id by lia.
  rewrite Hlm in Im. rewrite Hlx in Ix. rewrite Hly in Iy.
  do 5 eexists. rewrite Hall; simpl.
  split; [reflexivity|].
  split; [exact Ld|]. split; [exact Id|]. split.
  { intros k v Hk.
    destruct (fill_carries "D" (Some regs)) as (Hlook & Hnames & _).
    destruct (Hnames k (mk_is_Some _ _ Hk)) as [i ->].
    rewrite Hlook in Hk. simpl in Hk.
    rewrite Forall_lookup in Hu16. by apply (Hu16 i v). }
  split; [exact Lm|]. split; [exact Im|].
  split; [exact Lx|]. split; [exact Ix|].
  split; [exact Ly|]. split; [exact Iy|].
  destruct lb as [|b0 [|b1 [|b2 [|b3 rest]]]]; simpl in Hlb; try lia.
  unfold get_status, bind at 1. rewrite Hall. unfold bind at 1.
  unfold read_m_coils, bind, ensure_connected, call, ret; simpl.
  rewrite Hb; simpl. rewrite Lm.
  do 2 eexists. split; [reflexivity|]. split; [apply lookup_insert_eq|].
  assert (Hfree : forall i : nat, (10 <= i)%nat ->
            fill "M" (Some lm) ∅ !! ("M" +:+ pretty i) = None).
  { intros i Hi. destruct Im as [_ Im].
    apply eq_None_not_Some. rewrite Im. lia. }
  pose proof (Hfree 100%nat ltac:(lia)) as F0.
  pose proof (Hfree 101%nat ltac:(lia)) as F1.
  pose proof (Hfree 102%nat ltac:(lia)) as F2.
  pose proof (Hfree 103%nat ltac:(lia)) as F3.
  change ("M" +:+ pretty 100%nat) with "M100" in F0.
  change ("M" +:+ pretty 101%nat) with "M101" in F1.
  change ("M" +:+ pretty 102%nat) with "M102" in F2.
  change ("M" +:+ pretty 103%nat) with "M103" in F3.
  rewrite !map_size_insert_None;
    rewrite ?lookup_insert_ne by done; try done.
  destruct Im as [-> _]. reflexivity.
Qed.

Lemma steady_answers_reads : answers_reads (steady_bus true true 7).
Proof.
  intros history request.
  destruct request; try exact I; intros Hcount;
    unfold steady_bus, steady_device; simpl; rewrite last_snoc.
  - split; [rewrite length_replicate|apply Forall_replicate]; lia.
  - rewrite length_replicate.
    pose proof (Z.div_pos (count + 7) 8). lia.
  - rewrite length_replicate.
    pose proof (Z.div_pos (count + 7) 8). lia.
Defined.

Lemma snapshot_of_answering_device_witness :
  answers_reads (bus sample_world) /\
  connected sample_world = true /\ client sample_world = true /\
  exists (st' : gmap string Field) (m' : gmap string bool),
    (get_status sample_world).1 = (BStatus st', 200) /\
    st' !! "m_coils" = Some (FFlags m') /\ size m' = 14%nat.
Proof.
  split; [exact steady_answers_reads|]. split; [reflexivity|].
  split; [reflexivity|].
  destruct (snapshot_of_answering_device sample_world steady_answers_reads
              eq_refl eq_refl)
    as (st & d & m & x & y & _ & _ & _ & _ & _ & _ & _ & _ & _ & _ & H).
  exact H.
Defined.

(** * Further properties of the request facade *)

Section FacadeErrors.

Variable int_of_str : string -> option Z.

(** X10. A register write whose value cannot be read as an integer
    never reaches the device: a string that [int] refuses is answered
    400, and null, a list or an object in the place of the value is
    answered 500; in each case the world is left as it was. *)
Theorem register_write_refuses_unreadable_values (address : Z)
    (fields : list (string * json)) (w : World) :
  (forall s, assoc "value" fields = Some (JStr s) -> int_of_str s = None ->
     d_register int_of_str POST address (JObj fields) w =
     ((BInvalid ValueError, 400), w)) /\
  (forall v, assoc "value" fields = Some v ->
     match v with JNull | JArr _ | JObj _ => True | _ => False end ->
     d_register int_of_str POST address (JObj fields) w =
     ((BError TypeError, 500), w)).
Proof.
  split.
  - intros s Hv Hs. unfold d_register, get. rewrite Hv. simpl. by rewrite Hs.
  - intros v Hv Hkind. unfold d_register, get. rewrite Hv. simpl.
    destruct v; try done.
Qed.

(** X11. Every POST route answers a body that is not a JSON object
    (null, a list, a string, a number) with 500 and leaves the world as
    it was: no write is made on a default. *)
Theorem post_routes_refuse_non_objects (address : Z) (body : json) (w : World) :
  is_object body = false ->
  d_register int_of_str POST address body w = ((BError AttributeError, 500), w) /\
  m_coil POST address body w = ((BError AttributeError, 500), w) /\
  y_output POST address body w = ((BError AttributeError, 500), w) /\
  bulk_write_m int_of_str body w = ((BError AttributeError, 500), w) /\
  bulk_write_y int_of_str body w = ((BError AttributeError, 500), w).
Proof.
  intros Hobj. destruct body; try discriminate Hobj; repeat split.
Qed.

(** X12. The state of a coil or output write is the truth value of the
    field, not its text: the request is served exactly as if that truth
    value had been sent as a boolean, so that any string that is not
    empty, "false" included, switches the coil on, while null, 0 and the
    empty string switch it off. *)
Theorem coil_writes_take_truth_value (address : Z)
    (fields : list (string * json)) (v : json) (w : World) :
  assoc "state" fields = Some v ->
  m_coil POST address (JObj fields) w =
    m_coil POST address (JObj [("state", JBool (py_bool v))]) w /\
  y_output POST address (JObj fields) w =
    y_output POST address (JObj [("state", JBool (py_bool v))]) w /\
  (forall s, v = JStr s -> s <> "" -> py_bool v = true) /\
  (v = JNull \/ v = JInt 0 \/ v = JStr "" -> py_bool v = false).
Proof.
  intros Hv. repeat split.
  - unfold m_coil, coil_post, get. by rewrite Hv.
  - unfold y_output, coil_post, get. by rewrite Hv.
  - intros s -> Hs. simpl. destruct (String.eqb_spec s ""); done.
  - intros [->|[->| ->]]; reflexivity.
Qed.

End FacadeErrors.

Lemma register_write_refuses_unreadable_values_witness :
  assoc "value" [("value", JStr "abc")] = Some (JStr "abc") /\
  decimal "abc" = None /\
  d_register decimal POST 200 (JObj [("value", JStr "abc")]) sample_world =
    ((BInvalid ValueError, 400), sample_world).
Proof.
  split; [reflexivity|]. split; [reflexivity|].
  exact (proj1 (register_write_refuses_unreadable_values decimal 200
                  [("value", JStr "abc")] sample_world) "abc" eq_refl eq_refl).
Defined.

Lemma post_routes_refuse_non_objects_witness :
  is_object JNull = false /\
  bulk_write_y decimal JNull sample_world =
    ((BError AttributeError, 500), sample_world).
Proof.
  split; [reflexivity|].
  exact (proj2 (proj2 (proj2 (proj2
    (post_routes_refuse_non_objects decimal 0 JNull sample_world eq_refl))))).
Defined.

Lemma coil_writes_take_truth_value_witness :
  assoc "state" [("state", JStr "false")] = Some (JStr "false") /\
  trace (y_output POST 0 (JObj [("state", JStr "false")]) sample_world).2 =
    [EConnect; EWriteCoil (Y_OFFSET + 0) true].
Proof.
  split; [reflexivity|].
  destruct (coil_writes_take_truth_value 0 [("state", JStr "false")]
              (JStr "false") sample_world eq_refl) as (_ & H & _).
  rewrite H. reflexivity.
Defined.

Section RangeDict.

Variable start : Z.

Let put (acc : gmap string Z) (iv : nat * Z) : gmap string Z :=
  <["D" +:+ pretty (start + Z.of_nat iv.1) := iv.2]> acc.

Lemma range_name_inj (i j : nat) :
  "D" +:+ pretty (start + Z.of_nat i) = "D" +:+ pretty (start + Z.of_nat j) ->
  i = j.
Proof.
  intros H. apply (inj (String.app "D")) in H. apply (inj pretty) in H. lia.
Qed.

Lemma put_lookup (values : list Z) : forall (i0 : nat) acc (j : nat),
  foldl put acc (enumerate_from i0 values)
    !! ("D" +:+ pretty (start + Z.of_nat j)) =
  if decide (i0 <= j < i0 + length values)%nat
  then values !! (j - i0)%nat
  else acc !! ("D" +:+ pretty (start + Z.of_nat j)).
Proof.
  induction values as [|v rest IH]; intros i0 acc j; simpl length; simpl foldl.
  - case_decide; [lia|reflexivity].
  - rewrite IH. unfold put; simpl.
    destruct (decide (j = i0)) as [->|Hne].
    + rewrite lookup_insert_eq, Nat.sub_diag.
      repeat case_decide; try lia; reflexivity.
    + rewrite lookup_insert_ne by (intros H; apply range_name_inj in H; lia).
      repeat case_decide; try lia; try reflexivity.
      replace (j - i0)%nat with (S (j - S i0)) by lia. reflexivity.
Qed.

Lemma put_names (values : list Z) : forall (i0 : nat) acc k,
  is_Some (foldl put acc (enumerate_from i0 values) !! k) ->
  is_Some (acc !! k) \/
  exists i : nat, (i0 <= i < i0 + length values)%nat /\
                  k = "D" +:+ pretty (start + Z.of_nat i).
Proof.
  induction values as [|v rest IH]; intros i0 acc k; simpl; [auto|].
  intros H. apply IH in H as [H|(i & Hi & ->)].
  - unfold put in H; simpl in H.
    destruct (decide ("D" +:+ pretty (start + Z.of_nat i0) = k)) as [<-|Hne].
    + right. exists i0. split; [lia|done].
    + rewrite lookup_insert_ne in H by done. auto.
  - right. exists i. split; [lia|done].
Qed.

Lemma put_size (values : list Z) : forall (i0 : nat) (acc : gmap string Z),
  (forall j : nat, (i0 <= j)%nat ->
     acc !! ("D" +:+ pretty (start + Z.of_nat j)) = None) ->
  size (foldl put acc (enumerate_from i0 values))
  = (size acc + length values)%nat.
Proof.
  induction values as [|v rest IH]; intros i0 acc Hfresh; simpl; [lia|].
  rewrite IH.
  - unfold put; simpl.
    rewrite map_size_insert_None by (apply Hfresh; lia). lia.
  - intros j Hj. unfold put; simpl.
    rewrite lookup_insert_ne; [apply Hfresh; lia|].
    intros H. apply range_name_inj in H. lia.
Qed.

(** X13. A range read of at most 100 registers that returns data is
    answered 200 with one entry per register returned: register number
    [i] of the reply under the name D(start+i), and no other name.  The
    range check has no lower bound, and a read that fails is answered
    500. *)
Theorem range_read_names_registers (count : Z) (w : World) :
  count <= 100 ->
  let read := read_d_registers start count w in
  (forall regs, read.1 = Some regs ->
     exists dict,
       d_register_range start count w = ((BRange start count dict, 200), read.2) /\
       (forall i : nat,
          dict !! ("D" +:+ pretty (start + Z.of_nat i)) = regs !! i) /\
       (forall k, is_Some (dict !! k) ->
          exists i : nat, (i < length regs)%nat /\
                          k = "D" +:+ pretty (start + Z.of_nat i)) /\
       size dict = length regs) /\
  (read.1 = None ->
     d_register_range start count w =
     ((BJson [("error", JStr "Failed to read registers")], 500), read.2)).
Proof.
  intros Hcount. simpl. unfold d_register_range.
  destruct (100 <? count) eqn:Hc; [lia|]. unfold bind, ret.
  destruct (read_d_registers start count w) as [[regs|] w']; simpl.
  - split; [|discriminate]. intros ? [= <-].
    exists (range_dict start regs). split; [reflexivity|].
    unfold range_dict, enumerate. fold put. split; [|split].
    + intros i. rewrite put_lookup, Nat.sub_0_r.
      destruct (decide _) as [|Hout]; [done|].
      rewrite lookup_empty. symmetry. apply lookup_ge_None. lia.
    + intros k Hk. apply put_names in Hk as [[x Hx]|(i & Hi & ->)].
      * by rewrite lookup_empty in Hx.
      * exists i. split; [lia|done].
    + rewrite put_size; [done|]. intros j _. apply lookup_empty.
  - split; [discriminate|done].
Qed.

End RangeDict.

Lemma range_read_names_registers_witness :
  3 <= 100 /\
  (read_d_registers 50 3 sample_world).1 = Some [7; 7; 7] /\
  exists dict,
    (d_register_range 50 3 sample_world).1 = (BRange 50 3 dict, 200) /\
    dict !! "D51" = Some 7 /\ size dict = 3%nat.
Proof.
  assert (Hle : 3 <= 100) by (intros H; discriminate H).
  split; [exact Hle|]. split; [reflexivity|].
  destruct (proj1 (range_read_names_registers 50 3 sample_world Hle)
              [7; 7; 7] eq_refl) as (dict & Hrun & Hlook & _ & Hsize).
  exists dict. split; [by rewrite Hrun|]. split; [exact (Hlook 1%nat)|exact Hsize].
Defined.

(** * Further properties of the bulk writes *)

Section BulkEdges.

Variable int_of_str : string -> option Z.
Variable letter : string.
Variable write : Z -> bool -> M bool.

Let record (acc : gmap string bool) (p : Z * bool) : gmap string bool :=
  <[letter +:+ pretty p.1 := p.2]> acc.

Lemma bulk_loop_stops (bad : string) (state : json)
    (rest : list (string * json)) (good : list (string * json)) :
  forall entries results count w,
  entries_of int_of_str good = Some entries ->
  int_of_str bad = None ->
  bulk_loop int_of_str letter write (good ++ (bad, state) :: rest)
    results count w
  = (Raise ValueError, (each_write write entries w).2).
Proof.
  induction good as [|[address_str s] good IH];
    intros entries results count w Hent Hbad; simpl in Hent.
  - inversion Hent; subst. simpl. by rewrite Hbad.
  - destruct (int_of_str address_str) as [address|] eqn:Hint; [|discriminate].
    destruct (entries_of int_of_str good) as [tail|] eqn:Htail; [|discriminate].
    inversion Hent; subst; clear Hent.
    simpl. rewrite Hint. unfold bind, ret.
    destruct (write address (py_bool s) w) as [ok w'].
    rewrite (IH tail _ _ _ eq_refl Hbad).
    by destruct (each_write write tail w').
Qed.

Lemma record_last (pairs : list (Z * bool)) : forall acc i address ok,
  pairs !! i = Some (address, ok) ->
  (forall j p, (i < j)%nat -> pairs !! j = Some p -> p.1 <> address) ->
  foldl record acc pairs !! (letter +:+ pretty address) = Some ok.
Proof.
  induction pairs as [|[a b] rest IH]; intros acc i address ok Hi Hlater; [done|].
  destruct i as [|i]; simpl in *.
  - inversion Hi; subst.
    rewrite (record_other letter rest); [apply lookup_insert_eq|].
    intros Hin. apply list_elem_of_fmap in Hin as (p & Hp & Hin).
    apply list_elem_of_lookup in Hin as [j Hj].
    apply (Hlater (S j) p); [lia|done|done].
  - apply (IH _ i); [done|].
    intros j p Hj Hp. apply (Hlater (S j) p); [lia|done].
Qed.

Lemma record_size (pairs : list (Z * bool)) : forall acc,
  (size (foldl record acc pairs) <= size acc + length pairs)%nat.
Proof.
  induction pairs as [|p rest IH]; intros acc; simpl; [lia|].
  etrans; [apply IH|]. unfold record. rewrite map_size_insert.
  destruct (acc !! _); simpl; unfold id; lia.
Qed.

Lemma bulk_write_any_entries (key : string) (body : json)
    (items : list (string * json)) (entries : list (Z * bool)) (w : World) :
  get body key (JObj []) = Value (JObj items) ->
  entries_of int_of_str items = Some entries ->
  let done := each_write write entries w in
  exists success results,
    bulk_write int_of_str key letter write body w =
      ((BBulk success (Z.of_nat (length entries)) (succeeded_among done.1)
          results, 200), done.2) /\
    (forall i address state, entries !! i = Some (address, state) ->
       (forall j a s, (i < j)%nat -> entries !! j = Some (a, s) -> a <> address) ->
       is_Some (done.1 !! i) /\
       results !! (letter +:+ pretty address) = done.1 !! i) /\
    (size results <= length entries)%nat.
Proof.
  intros Hget Hent. simpl. unfold bulk_write. rewrite Hget.
  unfold bind. rewrite (bulk_loop_unfold _ _ _ _ _ _ _ _ Hent). simpl.
  pose proof (each_write_length write entries w) as Hlen.
  destruct (each_write write entries w) as [flags w']; simpl in *.
  assert (Hitems : length items = length entries).
  { clear -Hent. revert entries Hent.
    induction items as [|[k v] rest IH]; intros entries H; simpl in H.
    - by inversion H.
    - destruct (int_of_str k); [|discriminate].
      destruct (entries_of int_of_str rest) as [tail|]; [|discriminate].
      inversion H; subst. simpl. by rewrite (IH tail eq_refl). }
  unfold ret. do 2 eexists. rewrite Hitems.
  split; [reflexivity|]. fold record. split.
  - intros i address state Hi Hlater.
    destruct (lookup_lt_is_Some_2 flags i) as [ok Hok].
    { rewrite Hlen. eapply lookup_lt_Some; eauto. }
    split; [eauto|]. rewrite Hok.
    apply (record_last _ _ i).
    + apply lookup_zip_with_Some. exists address, ok.
      split; [done|]. split; [|done]. by rewrite list_lookup_fmap, Hi.
    + intros j [a ok'] Hj Hp. simpl.
      apply lookup_zip_with_Some in Hp as (a' & ok'' & [= -> ->] & Ha & _).
      rewrite list_lookup_fmap in Ha.
      destruct (entries !! j) as [[a'' s'']|] eqn:Hej; [|discriminate].
      simpl in Ha. inversion Ha; subst. by apply (Hlater j a' s'').
  - etrans; [apply record_size|].
    rewrite map_size_empty, length_zip_with, length_fmap. lia.
Qed.

End BulkEdges.

(** X14. A bulk write is not atomic: when a key of the payload cannot be
    read as an address, the route answers 500, the writes of the entries
    before that key have been made and stay made, and no entry after it
    is written. *)
Theorem bulk_write_stops_at_unreadable_key (int_of_str : string -> option Z)
    (body : json) (good rest : list (string * json)) (bad : string)
    (state : json) (entries : list (Z * bool)) (w : World) :
  entries_of int_of_str good = Some entries ->
  int_of_str bad = None ->
  (get body "coils" (JObj []) = Value (JObj (good ++ (bad, state) :: rest)) ->
     bulk_write_m int_of_str body w =
     ((BError ValueError, 500), (each_write write_m_coil entries w).2)) /\
  (get body "outputs" (JObj []) = Value (JObj (good ++ (bad, state) :: rest)) ->
     bulk_write_y int_of_str body w =
     ((BError ValueError, 500), (each_write write_y_output entries w).2)).
Proof.
  intros Hent Hbad.
  split; intros Hget; unfold bulk_write_m, bulk_write_y, bulk_write;
    rewrite Hget; unfold bind;
    by rewrite (bulk_loop_stops _ _ _ _ _ _ _ _ _ _ _ Hent Hbad).
Qed.

Lemma bulk_write_stops_at_unreadable_key_witness :
  entries_of decimal [("0", JBool true)] = Some [(0, true)] /\
  decimal "x" = None /\
  (bulk_write_y decimal
     (JObj [("outputs", JObj [("0", JBool true); ("x", JBool true);
                              ("3", JBool true)])]) sample_world).1
    = (BError ValueError, 500) /\
  trace (bulk_write_y decimal
     (JObj [("outputs", JObj [("0", JBool true); ("x", JBool true);
                              ("3", JBool true)])]) sample_world).2
    = [EConnect; EWriteCoil (Y_OFFSET + 0) true].
Proof.
  split; [reflexivity|]. split; [reflexivity|].
  pose proof (proj2 (bulk_write_stops_at_unreadable_key decimal
    (JObj [("outputs", JObj [("0", JBool true); ("x", JBool true);
                             ("3", JBool true)])])
    [("0", JBool true)] [("3", JBool true)] "x" (JBool true) [(0, true)]
    sample_world eq_refl eq_refl) eq_refl) as H.
  rewrite H. split; reflexivity.
Defined.

(** X15. For any payload whose keys all read as addresses, also when
    two keys read as the same address: [total] is the number of entries,
    [succeeded] the number of writes that returned success, every entry
    is written, and under the name of an address stands the flag of the
    last entry with that address, so that [results] can hold fewer names
    than [total] counts. *)
Theorem bulk_write_later_entry_wins (int_of_str : string -> option Z)
    (body : json) (items : list (string * json)) (entries : list (Z * bool))
    (w : World) :
  entries_of int_of_str items = Some entries ->
  let told (letter : string) (write : Z -> bool -> M bool) (out : Reply * World) :=
    let done := each_write write entries w in
    exists success results,
      out = ((BBulk success (Z.of_nat (length entries))
                (succeeded_among done.1) results, 200), done.2) /\
      (forall i address state, entries !! i = Some (address, state) ->
         (forall j a s, (i < j)%nat -> entries !! j = Some (a, s) -> a <> address) ->
         is_Some (done.1 !! i) /\
         results !! (letter +:+ pretty address) = done.1 !! i) /\
      (size results <= length entries)%nat in
  (get body "coils" (JObj []) = Value (JObj items) ->
     told "M" write_m_coil (bulk_write_m int_of_str body w)) /\
  (get body "outputs" (JObj []) = Value (JObj items) ->
     told "Y" write_y_output (bulk_write_y int_of_str body w)).
Proof.
  intros Hent. simpl. split; intros Hget.
  - exact (bulk_write_any_entries int_of_str "M" write_m_coil "coils"
             body items entries w Hget Hent).
  - exact (bulk_write_any_entries int_of_str "Y" write_y_output "outputs"
             body items entries w Hget Hent).
Qed.

Lemma bulk_write_later_entry_wins_witness :
  entries_of decimal [("1", JBool true); ("01", JBool false)]
    = Some [(1, true); (1, false)] /\
  exists results,
    (bulk_write_y decimal
       (JObj [("outputs", JObj [("1", JBool true); ("01", JBool false)])])
       (started tiring_bus)).1 = (BBulk false 2 1 results, 200) /\
    results !! "Y1" = Some false /\ (size results <= 2)%nat.
Proof.
  split; [reflexivity|].
  destruct (proj2 (bulk_write_later_entry_wins decimal
    (JObj [("outputs", JObj [("1", JBool true); ("01", JBool false)])])
    [("1", JBool true); ("01", JBool false)] [(1, true); (1, false)]
    (started tiring_bus) eq_refl) eq_refl)
    as (success & results & Hout & Hlast & Hsize).
  exists results. split; [|split; [|exact Hsize]].
  - rewrite Hout. simpl. f_equal.
    assert (Hs : (bulk_write_y decimal
       (JObj [("outputs", JObj [("1", JBool true); ("01", JBool false)])])
       (started tiring_bus)).1.1 = BBulk success 2 1 results)
      by (by rewrite Hout).
    vm_compute in Hs. by inversion Hs.
  - refine (proj2 (Hlast 1%nat 1 false eq_refl _)).
    intros j a s Hj Hentry. destruct j as [|[|j]]; [lia|lia|discriminate Hentry].
Defined.

(** X16. A bulk request whose payload field is missing or is an empty
    object writes nothing, makes no connect attempt, and is answered 200
    with [success] true, [total] 0 and [succeeded] 0; a payload field that
    is not an object is answered 500, again with nothing written. *)
Theorem bulk_write_of_nothing (int_of_str : string -> option Z)
    (fields : list (string * json)) (w : World) :
  (assoc "coils" fields = None \/ assoc "coils" fields = Some (JObj []) ->
     bulk_write_m int_of_str (JObj fields) w = ((BBulk true 0 0 ∅, 200), w)) /\
  (assoc "outputs" fields = None \/ assoc "outputs" fields = Some (JObj []) ->
     bulk_write_y int_of_str (JObj fields) w = ((BBulk true 0 0 ∅, 200), w)) /\
  (forall v, assoc "coils" fields = Some v -> is_object v = false ->
     bulk_write_m int_of_str (JObj fields) w = ((BError AttributeError, 500), w)) /\
  (forall v, assoc "outputs" fields = Some v -> is_object v = false ->
     bulk_write_y int_of_str (JObj fields) w = ((BError AttributeError, 500), w)).
Proof.
  unfold bulk_write_m, bulk_write_y, bulk_write, get.
  repeat split.
  - intros [-> | ->]; reflexivity.
  - intros [-> | ->]; reflexivity.
  - intros v -> Hv. destruct v; try discriminate Hv; reflexivity.
  - intros v -> Hv. destruct v; try discriminate Hv; reflexivity.
Qed.

Lemma bulk_write_of_nothing_witness :
  assoc "outputs" ([] : list (string * json)) = None /\
  bulk_write_y decimal (JObj []) (boot (steady_bus true true 7)) =
    ((BBulk true 0 0 ∅, 200), boot (steady_bus true true 7)).
Proof.
  split; [reflexivity|].
  exact (proj1 (proj2 (bulk_write_of_nothing decimal []
                         (boot (steady_bus true true 7)))) (or_introl eq_refl)).
Defined.

(** * Further properties of the connection handling *)

(** X17. [disconnect] closes the client and lowers the flag when a client
    exists, and does nothing at all before the first connect; POST
    /api/disconnect answers 200 either way.  A disconnect does not stop
    the gateway: the next read or write operation starts with a connect
    attempt of its own. *)
Theorem operation_after_disconnect_reconnects (op : Operation) (w : World) :
  (Api.disconnect w).1.2 = 200 /\
  (Api.disconnect w).2 = (disconnect w).2 /\
  (client w = false -> disconnect w = (tt, w)) /\
  (client w = true ->
     issued disconnect w = [EClose] /\
     connected (disconnect w).2 = false /\
     exists rest, issued (run op) (disconnect w).2 = EConnect :: rest).
Proof.
  destruct w as [b cl co t]; simpl.
  split; [by destruct cl|]. split; [by destruct cl|].
  split; intros ->; [reflexivity|].
  unfold disconnect; simpl.
  split; [by apply issued_app|]. split; [reflexivity|].
  generalize (t ++ [EClose]); intros t'.
  destruct op; unfold issued; step_world;
    repeat (match goal with
            | |- context [link ?b ?t] => destruct (link b t) as [| |[|]] eqn:?
            | |- context [accepted ?r] => destruct (accepted r) eqn:?
            | |- context [verified ?v ?s] => destruct (verified v s) eqn:?
            end; simpl in * );
    rewrite <- ?app_assoc; rewrite drop_app_length; simpl; eauto.
Qed.

Lemma operation_after_disconnect_reconnects_witness :
  client sample_world = true /\
  connected (disconnect sample_world).2 = false /\
  issued (run (OpReadD 0 1)) (disconnect sample_world).2 =
    [EConnect; EReadHolding (D_OFFSET + 0) 1].
Proof.
  split; [reflexivity|].
  destruct (operation_after_disconnect_reconnects (OpReadD 0 1) sample_world)
    as (_ & _ & _ & H).
  destruct (H eq_refl) as (_ & Hflag & _).
  split; [exact Hflag|reflexivity].
Defined.

(** X18. [connect] is not guarded by the flag: POST /api/connect always
    makes one connect attempt, also on a connected gateway, and POST
    /api/reconnect closes an existing client and then makes one.  Both
    answer 200 exactly when the gateway ends connected, and 500 exactly
    when it ends disconnected; so a failed attempt on a gateway that was
    connected leaves it disconnected. *)
Theorem connect_routes_report_the_flag (w : World) :
  issued Api.connect w = [EConnect] /\
  issued Api.reconnect w = (if client w then [EClose; EConnect] else [EConnect]) /\
  ((Api.connect w).1.2 = 200 <-> connected (Api.connect w).2 = true) /\
  ((Api.connect w).1.2 = 500 <-> connected (Api.connect w).2 = false) /\
  ((Api.reconnect w).1.2 = 200 <-> connected (Api.reconnect w).2 = true) /\
  ((Api.reconnect w).1.2 = 500 <-> connected (Api.reconnect w).2 = false) /\
  (link (bus w) (trace w ++ [EConnect]) <> ConnectReturns true ->
     connected (Api.connect w).2 = false).
Proof.
  destruct w as [b cl co t].
  unfold Api.connect, Api.reconnect, issued, bind, disconnect, connect, ret;
    simpl.
  destruct cl; simpl;
    repeat (match goal with
            | |- context [link ?b ?t] => destruct (link b t) as [| |[|]] eqn:?
            end; simpl);
    rewrite <- ?app_assoc; rewrite ?drop_app_length;
    repeat split; intros; try done.
Qed.

Lemma connect_routes_report_the_flag_witness :
  connected (started (steady_bus false true 7)) = true /\
  (Api.connect (started (steady_bus false true 7))).1.2 = 500 /\
  connected (Api.connect (started (steady_bus false true 7))).2 = false.
Proof.
  split; [reflexivity|]. split; [reflexivity|].
  refine (proj2 (proj2 (proj2 (proj2 (proj2 (proj2
    (connect_routes_report_the_flag (started (steady_bus false true 7))))))))
    _).
  intros H; discriminate H.
Defined.

(** * An invariant of whole sessions *)

Lemma extends_refl w : extends w w.
Proof. unfold extends; auto. Qed.

Lemma extends_trans w1 w2 w3 : extends w1 w2 -> extends w2 w3 -> extends w1 w3.
Proof.
  intros (Hwf1 & Hb1 & Ht1) (Hwf2 & Hb2 & Ht2). split; [auto|].
  split; [congruence|]. by etrans.
Qed.

Lemma keeps_ret {A} (a : A) : keeps (ret a).
Proof. intros w. apply extends_refl. Qed.

Lemma keeps_bind {A B} (m : M A) (k : A -> M B) :
  keeps m -> (forall a, keeps (k a)) -> keeps (bind m k).
Proof.
  intros Hm Hk w. unfold bind. specialize (Hm w).
  destruct (m w) as [a w']. simpl in Hm.
  eapply extends_trans; [exact Hm|apply Hk].
Qed.

Lemma keeps_plc_connected : keeps plc_connected.
Proof. intros w. apply extends_refl. Qed.

Lemma keeps_call e : keeps (call e).
Proof.
  intros [b [|] co t]; unfold call, extends, wf; simpl; auto.
  split; [auto|]. split; [done|]. by apply prefix_app_r.
Qed.

Lemma keeps_sleep ms : keeps (sleep ms).
Proof.
  intros [b cl co t]; unfold sleep, extends, wf; simpl.
  split; [auto|]. split; [done|]. by apply prefix_app_r.
Qed.

Lemma keeps_connect : keeps connect.
Proof.
  intros [b cl co t]; unfold connect, extends, wf; simpl.
  destruct (link b (t ++ [EConnect])) as [| |[|]]; simpl;
    (split; [auto; discriminate|]); (split; [done|]); by apply prefix_app_r.
Qed.

Lemma keeps_disconnect : keeps disconnect.
Proof.
  intros [b [|] co t]; unfold disconnect, extends, wf; simpl; auto.
  split; [discriminate|]. split; [done|]. by apply prefix_app_r.
Qed.

Lemma keeps_ensure_connected : keeps ensure_connected.
Proof.
  intros w. unfold ensure_connected.
  destruct (negb (connected w)); [apply keeps_connect|apply extends_refl].
Qed.

Create HintDb keeps.
#[local] Hint Resolve keeps_plc_connected keeps_call keeps_sleep keeps_connect
  keeps_disconnect keeps_ensure_connected : keeps.

(** Goes through a body made of [bind], [ret], tests and calls that are
    known to keep the invariant. *)
Ltac keeps_body :=
  repeat first
    [ apply keeps_ret
    | apply keeps_bind; [|intros ?]
    | solve [eauto with keeps]
    | match goal with
      | |- keeps (match ?x with _ => _ end) => destruct x
      end ].

Lemma keeps_run op : keeps (run op).
Proof.
  destruct op; unfold run, read_d_registers, read_m_coils, read_x_inputs,
    read_y_outputs, write_d_register, write_m_coil, write_y_output;
    keeps_body;
    unfold read_m_coils, _write_m_coil_alt; keeps_body.
Qed.

Lemma keeps_reads start count :
  keeps (read_d_registers start count) /\ keeps (read_m_coils start count) /\
  keeps (read_x_inputs start count) /\ keeps (read_y_outputs start count).
Proof.
  unfold read_d_registers, read_m_coils, read_x_inputs, read_y_outputs.
  repeat split; keeps_body.
Qed.

Lemma keeps_read_d_registers start count : keeps (read_d_registers start count).
Proof. apply keeps_reads. Qed.

Lemma keeps_read_m_coils start count : keeps (read_m_coils start count).
Proof. apply keeps_reads. Qed.

Lemma keeps_read_x_inputs start count : keeps (read_x_inputs start count).
Proof. apply keeps_reads. Qed.

Lemma keeps_read_y_outputs start count : keeps (read_y_outputs start count).
Proof. apply keeps_reads. Qed.

Lemma keeps_write_d_register address value :
  keeps (write_d_register address value).
Proof. unfold write_d_register. keeps_body. Qed.

Lemma keeps_write_y_output address state :
  keeps (write_y_output address state).
Proof. unfold write_y_output. keeps_body. Qed.

#[local] Hint Resolve keeps_read_d_registers keeps_read_m_coils
  keeps_read_x_inputs keeps_read_y_outputs keeps_write_d_register
  keeps_write_y_output : keeps.

Lemma keeps_write_m_coil address state : keeps (write_m_coil address state).
Proof. unfold write_m_coil, _write_m_coil_alt. keeps_body. Qed.

#[local] Hint Resolve keeps_write_m_coil : keeps.

Lemma keeps_get_all_status : keeps get_all_status.
Proof.
  intros w. unfold get_all_status.
  match goal with
  | |- extends _ (?m w).2 => assert (Hm : keeps m) by keeps_body; apply Hm
  end.
Qed.

#[local] Hint Resolve keeps_get_all_status : keeps.

Lemma keeps_get_status : keeps get_status.
Proof. unfold get_status. keeps_body. Qed.

Lemma keeps_health_check : keeps health_check.
Proof. unfold health_check. keeps_body. Qed.

Lemma keeps_coil_get letter read address :
  (forall s c, keeps (read s c)) -> keeps (coil_get letter read address).
Proof. intros Hread. unfold coil_get. keeps_body. Qed.

Lemma keeps_coil_post letter write address body :
  (forall a s, keeps (write a s)) -> keeps (coil_post letter write address body).
Proof. intros Hwrite. unfold coil_post. keeps_body. Qed.

Lemma keeps_connection_routes :
  keeps Api.connect /\ keeps Api.disconnect /\ keeps Api.reconnect.
Proof.
  unfold Api.connect, Api.disconnect, Api.reconnect. repeat split; keeps_body.
Qed.

Section KeepsRoutes.

Variable int_of_str : string -> option Z.

Lemma keeps_d_register method address body :
  keeps (d_register int_of_str method address body).
Proof. unfold d_register, d_register_except. keeps_body. Qed.

Lemma keeps_d_register_range start count : keeps (d_register_range start count).
Proof. unfold d_register_range. keeps_body. Qed.

Lemma keeps_bulk_loop letter write items :
  (forall a s, keeps (write a s)) ->
  forall results count, keeps (bulk_loop int_of_str letter write items results count).
Proof.
  intros Hwrite. induction items as [|[address_str state] rest IH];
    intros results count; simpl; keeps_body.
Qed.

Lemma keeps_bulk_write key letter write body :
  (forall a s, keeps (write a s)) ->
  keeps (bulk_write int_of_str key letter write body).
Proof.
  intros Hwrite. unfold bulk_write.
  pose proof (keeps_bulk_loop letter write) as Hloop. keeps_body.
Qed.

Lemma keeps_handle r : keeps (handle int_of_str r).
Proof.
  destruct r; cbn [handle];
    unfold m_coil, y_output, x_input, bulk_write_m, bulk_write_y;
    first [ apply keeps_health_check | apply keeps_get_status
          | apply keeps_d_register | apply keeps_d_register_range
          | apply keeps_coil_get; eauto with keeps
          | apply keeps_coil_post; eauto with keeps
          | apply keeps_connection_routes
          | apply keeps_bulk_write; eauto with keeps ].
Qed.

Lemma keeps_serve requests : keeps (serve int_of_str requests).
Proof.
  induction requests as [|r rest IH]; simpl.
  - apply keeps_ret.
  - apply keeps_bind; [apply keeps_handle|]. intros reply.
    apply keeps_bind; [exact IH|]. intros replies. apply keeps_ret.
Qed.

End KeepsRoutes.

(** X19. Whatever requests a session is made of, in whatever order and
    whatever the environment answers: a raised [connected] flag always
    comes with a client object (so that an operation whose guard passed
    does reach the transport), and the history of calls is only ever
    extended, never rewritten.  This holds from start-up. *)
Theorem session_keeps_invariants (int_of_str : string -> option Z)
    (requests : list Request) (b : Bus) (w : World) :
  let boot_run := (serve int_of_str requests (boot b)).2 in
  (connected boot_run = true -> client boot_run = true) /\
  bus boot_run = b /\
  (wf w ->
     let w' := (serve int_of_str requests w).2 in
     (connected w' = true -> client w' = true) /\
     bus w' = bus w /\ trace w `prefix_of` trace w').
Proof.
  simpl. pose proof (keeps_serve int_of_str requests) as Hk.
  destruct (Hk (boot b)) as (Hwf & Hbus & _).
  split; [exact (Hwf (wf_boot b))|]. split; [exact Hbus|].
  intros Hw. destruct (Hk w) as (Hwf' & Hbus' & Hpre).
  split; [exact (Hwf' Hw)|]. auto.
Qed.

Lemma session_keeps_invariants_witness :
  wf sample_world /\
  trace sample_world `prefix_of`
    trace (serve decimal [PostDisconnect; GetX 0; PostBulkM JNull]
             sample_world).2 /\
  client (serve decimal [PostDisconnect; GetX 0; PostBulkM JNull]
            sample_world).2 = true.
Proof.
  split; [exact wf_sample_world|].
  destruct (proj2 (proj2 (session_keeps_invariants decimal
              [PostDisconnect; GetX 0; PostBulkM JNull]
              (steady_bus true true 7) sample_world)) wf_sample_world)
    as (Hwf & _ & Hpre).
  split; [exact Hpre|]. exact (Hwf eq_refl).
Defined.

(** * What a GET never does *)

Lemma quiet_ret {A} (a : A) : quiet (ret a).
Proof. intros w. exists []. by rewrite app_nil_r. Qed.

Lemma quiet_bind {A B} (m : M A) (k : A -> M B) :
  quiet m -> (forall a, quiet (k a)) -> quiet (bind m k).
Proof.
  intros Hm Hk w. unfold bind. specialize (Hm w).
  destruct (m w) as [a w']. simpl in Hm. destruct Hm as (evs & Ht & Hq).
  destruct (Hk a w') as (evs' & Ht' & Hq').
  exists (evs ++ evs'). split; [by rewrite Ht', Ht, app_assoc|].
  by apply Forall_app.
Qed.

Lemma quiet_plc_connected : quiet plc_connected.
Proof. intros w. exists []. by rewrite app_nil_r. Qed.

Lemma quiet_ensure_connected : quiet ensure_connected.
Proof.
  intros [b cl co t]. unfold ensure_connected, connect; simpl.
  destruct co; simpl; [exists []; by rewrite app_nil_r|].
  destruct (link b (t ++ [EConnect])) as [| |[|]]; simpl;
    exists [EConnect]; (split; [done|]); by repeat constructor.
Qed.

Lemma quiet_call e : is_write e = false -> quiet (call e).
Proof.
  intros He [b [|] co t]; unfold call; simpl.
  - exists [e]. split; [done|]. by repeat constructor.
  - exists []. by rewrite app_nil_r.
Qed.

Ltac quiet_body :=
  repeat first
    [ apply quiet_ret
    | apply quiet_bind; [|intros ?]
    | apply quiet_plc_connected
    | apply quiet_ensure_connected
    | apply quiet_call; reflexivity
    | assumption
    | match goal with
      | |- quiet (match ?x with _ => _ end) => destruct x
      end ].

Lemma quiet_reads start count :
  quiet (read_d_registers start count) /\ quiet (read_m_coils start count) /\
  quiet (read_x_inputs start count) /\ quiet (read_y_outputs start count).
Proof.
  unfold read_d_registers, read_m_coils, read_x_inputs, read_y_outputs.
  repeat split; quiet_body.
Qed.

Lemma quiet_get_all_status : quiet get_all_status.
Proof.
  pose proof (fun s c => proj1 (quiet_reads s c)) as Hd.
  pose proof (fun s c => proj1 (proj2 (quiet_reads s c))) as Hm.
  pose proof (fun s c => proj1 (proj2 (proj2 (quiet_reads s c)))) as Hx.
  pose proof (fun s c => proj2 (proj2 (proj2 (quiet_reads s c)))) as Hy.
  intros w. unfold get_all_status.
  match goal with
  | |- adds_no_write _ (?m w).2 =>
      assert (Hq : quiet m) by
        (repeat first [ apply Hd | apply Hm | apply Hx | apply Hy
                      | apply quiet_ret | apply quiet_bind; [|intros ?] ]);
      apply Hq
  end.
Qed.

(** X20. No GET request ever issues a write transaction: whatever the
    state of the gateway and whatever the device answers, the events a
    GET adds to the history are connect attempts and reads only; GET
    /health adds nothing at all and reports the current flag. *)
Theorem get_requests_never_write (int_of_str : string -> option Z)
    (r : Request) (w : World) :
  is_get r = true ->
  Forall (fun e => is_write e = false) (issued (handle int_of_str r) w) /\
  health_check w =
    ((BJson [("status", JStr "running"); ("plc_connected", JBool (connected w));
             ("api_version", JStr "1.0.0")], 200), w).
Proof.
  intros Hget. split; [|reflexivity].
  assert (Hq : quiet (handle int_of_str r)).
  { pose proof (fun s c => proj1 (quiet_reads s c)) as Hd.
    pose proof (fun s c => proj1 (proj2 (quiet_reads s c))) as Hm.
    pose proof (fun s c => proj1 (proj2 (proj2 (quiet_reads s c)))) as Hx.
    pose proof (fun s c => proj2 (proj2 (proj2 (quiet_reads s c)))) as Hy.
    pose proof quiet_get_all_status as Hall.
    destruct r; try discriminate Hget; cbn [handle];
      unfold health_check, get_status, d_register, d_register_except,
        d_register_range, m_coil, y_output, x_input, coil_get;
      repeat first
        [ apply Hd | apply Hm | apply Hx | apply Hy | apply Hall
        | apply quiet_plc_connected
        | apply quiet_ret | apply quiet_bind; [|intros ?]
        | match goal with
          | |- quiet (match ?x with _ => _ end) => destruct x
          end ]. }
  destruct (Hq w) as (evs & Ht & Hno).
  by rewrite (issued_app _ _ _ Ht).
Qed.

Lemma get_requests_never_write_witness :
  is_get GetStatus = true /\
  Forall (fun e => is_write e = false) (issued (handle decimal GetStatus) sample_world).
Proof.
  split; [reflexivity|].
  exact (proj1 (get_requests_never_write decimal GetStatus sample_world eq_refl)).
Defined.

(** * A value that is a float but no number *)

(** X21. A register write whose value is a float that is not finite
    never reaches the device: plus or minus infinity (also a number too
    large for a float, such as 1e400) is answered 500, NaN is answered
    400, and the world is left as it was. *)
Theorem register_write_refuses_floats_not_finite
    (int_of_str : string -> option Z) (address : Z)
    (fields : list (string * json)) (w : World) :
  (forall negative, assoc "value" fields = Some (JInfinity negative) ->
     d_register int_of_str POST address (JObj fields) w =
     ((BError OverflowError, 500), w)) /\
  (assoc "value" fields = Some JNaN ->
     d_register int_of_str POST address (JObj fields) w =
     ((BInvalid ValueError, 400), w)).
Proof.
  split; [intros negative Hv|intros Hv];
    unfold d_register, get; by rewrite Hv.
Qed.

Lemma register_write_refuses_floats_not_finite_witness :
  assoc "value" [("value", JInfinity false)] = Some (JInfinity false) /\
  d_register decimal POST 200 (JObj [("value", JInfinity false)]) sample_world =
    ((BError OverflowError, 500), sample_world).
Proof.
  split; [reflexivity|].
  exact (proj1 (register_write_refuses_floats_not_finite decimal 200
                  [("value", JInfinity false)] sample_world) false eq_refl).
Defined.
